(** * Formula image metrics: extraction from PNG, SVG and legacy URLs,
      and sizing of the image

    A shallow embedding of [core/src/image.js] (the metrics extractors
    [getMetricsFromBytes] and [getMetricsFromSvgString], the sizing step
    [setImgSize] and [fixAfterResize] of class [Image]) and of the helpers of
    [util.js] and [configuration.js] they call, followed by the properties
    of the extractors and of the sizing step. [Image.clone], which copies a
    fixed list of attributes from one image to another, takes no part in
    the extraction; it is embedded over a map of attributes. *)

From Stdlib Require Import ZArith NArith List Lia SpecFloat.
From Stdlib.Strings Require Import Byte.
From stdpp Require Import gmap strings list.

Local Open Scope Z_scope.

(** * JavaScript values

    The fragment of the language the source relies on: numbers are IEEE 754
    binary64 values (the Standard Library's [spec_float] at precision 53),
    strings are sequences of UTF-16 code units, and the conversions
    [ToNumber], [ToString] and [ToBoolean] follow ECMA-262. *)
Module JS.

Abbreviation jsstring := (list N).

(** A string literal of the source, as code units. *)
Definition lit (s : string) : jsstring :=
  map Ascii.N_of_ascii (String.list_ascii_of_string s).

(** The code unit of the double quote character. *)
Definition dquote : N := 34%N.

(** ** Numbers *)
Abbreviation number := spec_float.
Definition prec : Z := 53.
Definition emax : Z := 1024.

Definition NaN : number := S754_nan.
Definition of_Z (z : Z) : number := binary_normalize prec emax z 0 false.
Definition add : number -> number -> number := SFadd prec emax.
Definition sub : number -> number -> number := SFsub prec emax.
Definition mul : number -> number -> number := SFmul prec emax.
Definition div : number -> number -> number := SFdiv prec emax.
Definition eqb : number -> number -> bool := SFeqb.

(** The binary64 value nearest to [(-1)^s * p / q]. *)
Definition of_ratio (s : bool) (p q : positive) : number :=
  SFdiv prec emax (S754_finite s p 0) (S754_finite false q 0).

(** The binary64 value nearest to [(-1)^s * m * 10^e] (a decimal literal). *)
Definition of_decimal (s : bool) (m : Z) (e : Z) : number :=
  match m with
  | Zpos p =>
      if 0 <=? e then binary_round prec emax s (p * Z.to_pos (10 ^ e)) 0
      else of_ratio s p (Z.to_pos (10 ^ (- e)))
  | _ => S754_zero s
  end.

(** [Math.round]: the nearest integer, ties towards +infinity; an argument
    in [-0.5, 0) gives -0. *)
Definition Math_round (x : number) : number :=
  match x with
  | S754_finite s m e =>
      if 0 <=? e then x
      else
        let sm := if s then Zneg m else Zpos m in
        binary_normalize prec emax ((2 * sm + 2 ^ (- e)) / 2 ^ (1 - e)) 0 s
  | _ => x
  end.

(** ** Number to string (ECMA-262, Number::toString, radix 10) *)

Fixpoint decimal_digits (fuel : nat) (n : Z) (acc : jsstring) : jsstring :=
  match fuel with
  | O => acc
  | S fuel' =>
      let acc' := Z.to_N (48 + n mod 10) :: acc in
      if n <? 10 then acc' else decimal_digits fuel' (n / 10) acc'
  end.

(** The decimal digits of a natural number, most significant first. *)
Definition decimal (n : Z) : jsstring :=
  decimal_digits (S (Z.to_nat (Z.log2 n))) n [].

(** [p / q * 10^j] as a fraction. *)
Definition scale10 (pq : Z * Z) (j : Z) : Z * Z :=
  if 0 <=? j then (fst pq * 10 ^ j, snd pq) else (fst pq, snd pq * 10 ^ (- j)).

(** The value [m * 2^e] as a fraction. *)
Definition fraction (m : positive) (e : Z) : Z * Z :=
  if 0 <=? e then (Zpos m * 2 ^ e, 1) else (Zpos m, 2 ^ (- e)).

Fixpoint first_above (fuel : nat) (pq : Z * Z) (n : Z) : Z :=
  match fuel with
  | O => n
  | S fuel' =>
      let '(p, q) := scale10 pq (- n) in
      if p <? q then n else first_above fuel' pq (n + 1)
  end.

(** The integer [n] with [10^(n-1) <= m * 2^e < 10^n]. *)
Definition magnitude (m : positive) (e : Z) : Z :=
  let est := (Zpos (digits2_pos m) + e - 1) * 30103 / 100000 in
  first_above 6 (fraction m e) (est - 1).

(** The shortest digit string [s] (with [k] digits) and exponent [n] such
    that [s * 10^(n-k)] rounds to the given value; the nearer one of the two
    [k]-digit neighbours if both do, the even one on a tie. *)
Fixpoint shortest (fuel : nat) (x : number) (pq : Z * Z) (n0 : Z) (k : Z)
  : Z * Z :=
  let '(p, q) := scale10 pq (k - n0) in
  let lo := p / q in
  match fuel with
  | O => (lo, n0)
  | S fuel' =>
      let hi := if lo + 1 =? 10 ^ k then (10 ^ (k - 1), n0 + 1) else (lo + 1, n0) in
      let ok_lo := eqb (of_decimal false lo (n0 - k)) x in
      let ok_hi := eqb (of_decimal false (fst hi) (snd hi - k)) x in
      match ok_lo, ok_hi with
      | true, false => (lo, n0)
      | false, true => hi
      | true, true =>
          match 2 * p ?= (2 * lo + 1) * q with
          | Lt => (lo, n0)
          | Gt => hi
          | Eq => if Z.even lo then (lo, n0) else hi
          end
      | false, false => shortest fuel' x pq n0 (k + 1)
      end
  end.

Definition zeros (n : Z) : jsstring := replicate (Z.to_nat n) 48%N.

Definition format_number (digits : jsstring) (n : Z) : jsstring :=
  let k := Z.of_nat (length digits) in
  if (k <=? n) && (n <=? 21) then digits ++ zeros (n - k)
  else if (0 <? n) && (n <=? 21) then
    take (Z.to_nat n) digits ++ lit "." ++ drop (Z.to_nat n) digits
  else if (-6 <? n) && (n <=? 0) then lit "0." ++ zeros (- n) ++ digits
  else
    let e := n - 1 in
    let exponent := lit (if 0 <=? e then "e+" else "e-") ++ decimal (Z.abs e) in
    match digits with
    | [d] => d :: exponent
    | d :: ds => d :: lit "." ++ ds ++ exponent
    | [] => exponent
    end.

Definition NumberToString (x : number) : jsstring :=
  match x with
  | S754_nan => lit "NaN"
  | S754_zero _ => lit "0"
  | S754_infinity s => lit (if s then "-Infinity" else "Infinity")
  | S754_finite s m e =>
      let '(d, n) :=
        shortest 17 (S754_finite false m e) (fraction m e) (magnitude m e) 1 in
      (if s then lit "-" else []) ++ format_number (decimal d) n
  end.

(** ** String to number (ECMA-262, StringToNumber) *)

Definition is_white_space (c : N) : bool :=
  bool_decide (c ∈ [9; 10; 11; 12; 13; 32; 160; 5760; 8232; 8233; 8239; 8287;
                    12288; 65279]%N)
  || ((8192 <=? c) && (c <=? 8202))%N.

Fixpoint drop_white_space (s : jsstring) : jsstring :=
  match s with
  | c :: s' => if is_white_space c then drop_white_space s' else s
  | [] => []
  end.

Definition trim (s : jsstring) : jsstring :=
  rev (drop_white_space (rev (drop_white_space s))).

(** The value of a digit in the given radix (letters in either case). *)
Definition digit_value (radix : Z) (c : N) : option Z :=
  let v :=
    if ((48 <=? c) && (c <=? 57))%N then Z.of_N c - 48
    else if ((97 <=? c) && (c <=? 122))%N then Z.of_N c - 87
    else if ((65 <=? c) && (c <=? 90))%N then Z.of_N c - 55
    else radix in
  if v <? radix then Some v else None.

(** Reads the longest run of digits: accumulated value, number of digits
    read, and the rest of the string. *)
Fixpoint read_digits (radix : Z) (s : jsstring) (acc count : Z)
  : Z * Z * jsstring :=
  match s with
  | c :: s' =>
      match digit_value radix c with
      | Some v => read_digits radix s' (radix * acc + v) (count + 1)
      | None => (acc, count, s)
      end
  | [] => (acc, count, [])
  end.

(** StrUnsignedDecimalLiteral, with the sign already read. *)
Definition unsigned_decimal (sign : bool) (s : jsstring) : number :=
  if bool_decide (s = lit "Infinity") then S754_infinity sign
  else
    let '(i, ni, r1) := read_digits 10 s 0 0 in
    let '(f, nf, r2) :=
      match r1 with
      | 46%N :: r => read_digits 10 r i 0
      | _ => (i, 0, r1)
      end in
    if ni + nf =? 0 then NaN
    else
      match r2 with
      | [] => of_decimal sign f (- nf)
      | c :: r3 =>
          if bool_decide (c = 101%N \/ c = 69%N) then
            let '(esign, r4) :=
              match r3 with
              | 43%N :: r => (false, r)
              | 45%N :: r => (true, r)
              | _ => (false, r3)
              end in
            let '(ev, ne, r5) := read_digits 10 r4 0 0 in
            match r5 with
            | [] => if ne =? 0 then NaN
                    else of_decimal sign f ((if esign then - ev else ev) - nf)
            | _ => NaN
            end
          else NaN
      end.

(** NonDecimalIntegerLiteral: the digits after [0x], [0o] or [0b]. *)
Definition non_decimal (radix : Z) (s : jsstring) : number :=
  match read_digits radix s 0 0 with
  | (v, n, []) => if n =? 0 then NaN else of_Z v
  | _ => NaN
  end.

Definition StringToNumber (s : jsstring) : number :=
  match trim s with
  | [] => S754_zero false
  | 43%N :: r => unsigned_decimal false r
  | 45%N :: r => unsigned_decimal true r
  | 48%N :: c :: r =>
      if bool_decide (c = 120%N \/ c = 88%N) then non_decimal 16 r
      else if bool_decide (c = 111%N \/ c = 79%N) then non_decimal 8 r
      else if bool_decide (c = 98%N \/ c = 66%N) then non_decimal 2 r
      else unsigned_decimal false (trim s)
  | t => unsigned_decimal false t
  end.

(** ** Values and conversions *)

Inductive value :=
  | Undefined
  | Boolean (b : bool)
  | Number (x : number)
  | String (s : jsstring).

Definition ToNumber (v : value) : number :=
  match v with
  | Undefined => NaN
  | Boolean b => of_Z (if b then 1 else 0)
  | Number x => x
  | String s => StringToNumber s
  end.

Definition ToString (v : value) : jsstring :=
  match v with
  | Undefined => lit "undefined"
  | Boolean b => lit (if b then "true" else "false")
  | Number x => NumberToString x
  | String s => s
  end.

Definition ToBoolean (v : value) : bool :=
  match v with
  | Undefined => false
  | Boolean b => b
  | Number (S754_zero _) | Number S754_nan => false
  | Number _ => true
  | String s => negb (bool_decide (s = []))
  end.

Definition typeof (v : value) : jsstring :=
  match v with
  | Undefined => lit "undefined"
  | Boolean _ => lit "boolean"
  | Number _ => lit "number"
  | String _ => lit "string"
  end.

(** The operators [-], [*], [/] convert both operands to numbers. *)
Definition minus (a b : value) : value := Number (sub (ToNumber a) (ToNumber b)).
Definition times (a b : value) : value := Number (mul (ToNumber a) (ToNumber b)).
Definition divide (a b : value) : value := Number (div (ToNumber a) (ToNumber b)).

(** The operator [+] concatenates as soon as one operand is a string. *)
Definition plus (a b : value) : value :=
  match a, b with
  | String _, _ | _, String _ => String (ToString a ++ ToString b)
  | _, _ => Number (add (ToNumber a) (ToNumber b))
  end.

(** The operator [==] (IsLooselyEqual) on the values above. *)
Definition loosely_equal (a b : value) : bool :=
  match a, b with
  | Undefined, Undefined => true
  | Undefined, _ | _, Undefined => false
  | String s, String t => bool_decide (s = t)
  | _, _ => eqb (ToNumber a) (ToNumber b)
  end.

(** ** String methods *)

Definition clamp (lo hi x : Z) : Z := Z.min (Z.max x lo) hi.

Definition jslength (s : jsstring) : Z := Z.of_nat (length s).

Definition is_prefix (p s : jsstring) : bool :=
  bool_decide (take (length p) s = p).

(** The first position at or after [k] where [search] occurs in the string
    whose suffix from [k] on is [s]. *)
Fixpoint index_from (search s : jsstring) (k : nat) : option nat :=
  if is_prefix search s then Some k
  else match s with
       | [] => None
       | _ :: s' => index_from search s' (S k)
       end.

(** [s.indexOf(search, position)] *)
Definition indexOf (s search : jsstring) (position : Z) : Z :=
  let start := Z.to_nat (clamp 0 (jslength s) position) in
  match index_from search (drop start s) start with
  | Some k => Z.of_nat k
  | None => -1
  end.

(** [s.substring(start, end)] *)
Definition substring (s : jsstring) (start end_ : Z) : jsstring :=
  let a := clamp 0 (jslength s) start in
  let b := clamp 0 (jslength s) end_ in
  let from := Z.to_nat (Z.min a b) in
  let to := Z.to_nat (Z.max a b) in
  take (to - from)%nat (drop from s).

(** [s.substr(start, length)] *)
Definition substr (s : jsstring) (start len : Z) : jsstring :=
  let size := jslength s in
  let from := if start <? 0 then Z.max (size + start) 0 else Z.min start size in
  let count := Z.min (Z.max len 0) (size - from) in
  take (Z.to_nat count) (drop (Z.to_nat from) s).

End JS.

(** * Outcomes of a call

    A call returns a value, throws, or (for the chunk loop, which is run on
    fuel) fails to finish; the last case is shown not to occur. *)
Inductive exn := OutOfBounds | InvalidEncoding | TypeError | URIError.

Inductive outcome (A : Type) : Type :=
  | Return (a : A)
  | Throw (e : exn)
  | Diverge.
Arguments Return {A} a.
Arguments Throw {A} e.
Arguments Diverge {A}.

Definition outcome_bind {A B} (m : outcome A) (k : A -> outcome B) : outcome B :=
  match m with
  | Return a => k a
  | Throw e => Throw e
  | Diverge => Diverge
  end.

Declare Scope outcome_scope.
Delimit Scope outcome_scope with outcome.
Notation "x <- m ;; k" := (outcome_bind m (fun x => k))
  (at level 100, m at next level, right associativity) : outcome_scope.

(** * The helpers of util.js

    util.js is not among the sources: every definition of this module is
    modelled from the specification (ByteCursor, Base64Decoder and
    LegacyUrlMetricsParser). *)
Module Util.
Import JS.

(** Modelled from the spec: util.js is not among the sources. A reader takes
    the bytes that remain and gives back what it read with the bytes left
    (the source's readers shorten the array they are given, which is why the
    chunk loop tests [bytes.length]). *)
Definition cursor (A : Type) : Type := list byte -> outcome (A * list byte).

(** Modelled from the spec: a byte as a number from 0 to 255. *)
Definition byte_value (b : byte) : Z := Z.of_N (Byte.to_N b).

(** Modelled from the spec: [Util.readBytes(bytes, 0, len)], the ByteCursor's
    [readBytes(n)]: the next [n] bytes, advancing by [n]; [OutOfBounds] if
    fewer than [n] bytes remain. *)
Definition readBytes (len : nat) : cursor (list byte) := fun bytes =>
  if (len <=? length bytes)%nat then Return (take len bytes, drop len bytes)
  else Throw OutOfBounds.

(** Modelled from the spec: [Util.readByte(bytes)], the ByteCursor's
    [readByte()]: one byte, advancing by 1. *)
Definition readByte : cursor Z := fun bytes =>
  match bytes with
  | b :: rest => Return (byte_value b, rest)
  | [] => Throw OutOfBounds
  end.

(** Modelled from the spec: the big-endian unsigned 32-bit integer of four
    bytes. *)
Definition uint32 (b0 b1 b2 b3 : byte) : Z :=
  ((byte_value b0 * 256 + byte_value b1) * 256 + byte_value b2) * 256
  + byte_value b3.

(** Modelled from the spec: [Util.readInt32(bytes)], the ByteCursor's
    [readUInt32BE()]: four bytes as a big-endian unsigned 32-bit integer,
    advancing by 4; [OutOfBounds] if fewer than 4 bytes remain. *)
Definition readInt32 : cursor Z := fun bytes =>
  match bytes with
  | b0 :: b1 :: b2 :: b3 :: rest => Return (uint32 b0 b1 b2 b3, rest)
  | _ => Throw OutOfBounds
  end.

(** Modelled from the spec: the value of a character of the standard
    base64 alphabet. *)
Definition decode64 (c : N) : option Z :=
  if ((65 <=? c) && (c <=? 90))%N then Some (Z.of_N c - 65)
  else if ((97 <=? c) && (c <=? 122))%N then Some (Z.of_N c - 71)
  else if ((48 <=? c) && (c <=? 57))%N then Some (Z.of_N c + 4)
  else if (c =? 43)%N then Some 62
  else if (c =? 47)%N then Some 63
  else None.

(** Modelled from the spec: the byte of the low eight bits of a number. *)
Definition byte_of (z : Z) : byte :=
  default x00 (Byte.of_N (Z.to_N (z mod 256))).

(** Modelled from the spec: the bytes of a group of two, three or four
    sextets. *)
Definition sextets (a b : Z) (c d : option Z) : list byte :=
  let first := byte_of (a * 4 + b / 16) in
  match c, d with
  | None, _ => [first]
  | Some c, None => [first; byte_of (b * 16 + c / 4)]
  | Some c, Some d => [first; byte_of (b * 16 + c / 4); byte_of (c * 64 + d)]
  end.

(** Modelled from the spec: the sextet of a character of a group, if the
    group has it; a character outside the alphabet is an error. *)
Definition sextet (c : option N) : outcome (option Z) :=
  match c with
  | None => Return None
  | Some c =>
      match decode64 c with
      | Some v => Return (Some v)
      | None => Throw InvalidEncoding
      end
  end.

(** Modelled from the spec: the bytes of a group of characters. *)
Definition group (a b : N) (c d : option N) : outcome (list byte) :=
  match decode64 a, decode64 b with
  | Some a', Some b' =>
      (c' <- sextet c ;; d' <- sextet d ;; Return (sextets a' b' c' d'))%outcome
  | _, _ => Throw InvalidEncoding
  end.

(** Modelled from the spec: decoding group by group while there is room in
    the output; the last group may be padded with one or two [=], or be
    short of them. *)
Fixpoint decode (s : jsstring) (room : option nat) : outcome (list byte) :=
  match room, s with
  | Some O, _ | _, [] => Return []
  | _, a :: b :: c :: d :: rest =>
      let pad := 61%N in
      match rest with
      | [] =>
          if bool_decide (d = pad) then
            if bool_decide (c = pad) then group a b None None
            else group a b (Some c) None
          else group a b (Some c) (Some d)
      | _ =>
          (g <- group a b (Some c) (Some d) ;;
           r <- decode rest ((fun n => n - 3)%nat <$> room) ;;
           Return (g ++ r))%outcome
      end
  | _, [a; b; c] => group a b (Some c) None
  | _, [a; b] => group a b None None
  | _, [_] => Throw InvalidEncoding
  end.

(** Modelled from the spec: [Util.b64ToByteArray(b64String, len)], the
    Base64Decoder: standard base64 to bytes, with or without the final
    padding, stopping once [len] bytes are decoded and giving at most [len]
    bytes; [InvalidEncoding] on a character outside the alphabet that is not
    padding (and on a dangling single character). *)
Definition b64ToByteArray (b64String : jsstring) (len : option Z)
  : outcome (list byte) :=
  match len with
  | Some n =>
      (r <- decode b64String (Some (Z.to_nat n)) ;;
       Return (take (Z.to_nat n) r))%outcome
  | None => decode b64String None
  end.

(** Modelled from the spec: a string split at every occurrence of a
    separator. *)
Fixpoint split_at (sep : N) (s : jsstring) : list jsstring :=
  match s with
  | [] => [[]]
  | c :: s' =>
      match split_at sep s' with
      | piece :: pieces =>
          if bool_decide (c = sep) then [] :: piece :: pieces
          else (c :: piece) :: pieces
      | [] => [[c]]
      end
  end.

(** Modelled from the spec: the parts of a string before and after the
    first separator. *)
Fixpoint break_at (sep : N) (s : jsstring) : jsstring * option jsstring :=
  match s with
  | [] => ([], None)
  | c :: s' =>
      if bool_decide (c = sep) then ([], Some s')
      else let '(k, v) := break_at sep s' in (c :: k, v)
  end.

(** Modelled from the spec: the four keys of the mapping. *)
Definition metric_key (k : jsstring) : option string :=
  if bool_decide (k = lit "cw") then Some "cw"%string
  else if bool_decide (k = lit "ch") then Some "ch"%string
  else if bool_decide (k = lit "cb") then Some "cb"%string
  else if bool_decide (k = lit "dpi") then Some "dpi"%string
  else None.

(** Modelled from the spec: [Util.urlToAssArray(url)], the
    LegacyUrlMetricsParser: the [key=value] pairs of the query string (the
    text after the first [?], split at [&]) as a mapping with the keys [cw],
    [ch], [cb] and [dpi]; other keys are ignored, a missing key leaves its
    entry absent; the values are the texts as they stand in the URL. *)
Definition urlToAssArray (url : jsstring) : gmap string value :=
  match snd (break_at 63%N url) with
  | None => ∅
  | Some query =>
      foldl (fun arr pair =>
               let '(k, v) := break_at 61%N pair in
               match metric_key k with
               | Some key => <[key := String (default [] v)]> arr
               | None => arr
               end)
            ∅ (split_at 38%N query)
  end.

End Util.

(** * The settings read through [Configuration.get] *)

(** Modelled from the spec: configuration.js is not among the sources; the
    core queries two string-valued settings, [imageFormat] and [saveMode]. *)
Record configuration := {
  imageFormat : JS.jsstring;
  saveMode : JS.jsstring
}.

(** * The image element

    What the core reads ([src]) and writes (the [width] and [height]
    attributes, the [vertical-align] and [max-width] declarations of the
    [style] attribute); an absent attribute or declaration is [None]. The
    values are kept as they are assigned. *)
Record image := {
  src : JS.jsstring;
  attr_width : option JS.value;
  attr_height : option JS.value;
  style_verticalAlign : option JS.jsstring;
  style_maxWidth : option JS.jsstring
}.

(** * Elements and their attributes

    [clone] uses the two images through [hasAttribute], [getAttribute],
    [setAttribute] and [removeAttribute] only: there an element is the
    finite map from the names of its attributes to their values.
    [getAttribute] gives [null], here [None], for an absent attribute. The
    names are compared as they stand. *)
Module Dom.
Import JS.

Abbreviation element := (gmap jsstring jsstring).

Definition hasAttribute (el : element) (name : jsstring) : bool :=
  bool_decide (is_Some (el !! name)).

Definition getAttribute (el : element) (name : jsstring) : option jsstring :=
  el !! name.

Definition setAttribute (el : element) (name value : jsstring) : element :=
  <[name := value]> el.

Definition removeAttribute (el : element) (name : jsstring) : element :=
  delete name el.

End Dom.

(** * class Image *)
Module Image.
Import JS.

(** ** [clone]

    The setting [imageMathmlAttribute], which the record [configuration]
    does not hold, is the first argument. *)

(** The list [imgAttributes]. *)
Definition imgAttributes (mathmlAttributeName : jsstring) : list jsstring :=
  [mathmlAttributeName; lit "data-custom-editor"; lit "alt"; lit "height";
   lit "width"; lit "style"; lit "src"; lit "role"].

(** The body of the [for] loop: one attribute. *)
Definition copy_attribute (originImg destImg : Dom.element)
    (iterator : jsstring) : Dom.element :=
  match Dom.getAttribute originImg iterator with
  | Some originAttribute =>
      if ToBoolean (String originAttribute)
      then Dom.setAttribute destImg iterator originAttribute
      else destImg
  | None => destImg
  end.

(** The destination image after the call. *)
Definition clone (mathmlAttributeName : jsstring)
    (originImg destImg : Dom.element) : Dom.element :=
  let customEditorAttributeName := lit "data-custom-editor" in
  let destImg :=
    if negb (Dom.hasAttribute originImg customEditorAttributeName)
    then Dom.removeAttribute destImg customEditorAttributeName
    else destImg in
  foldl (copy_attribute originImg) destImg (imgAttributes mathmlAttributeName).

(** The array with the entries [cw], [ch], [cb] and [dpi]. *)
Abbreviation metrics := (gmap string value).

(** [ar[key]]: an absent entry reads as [undefined]. *)
Definition entry (ar : metrics) (key : string) : value :=
  default Undefined (ar !! key).

(** ** [getMetricsFromSvgString] *)
Definition getMetricsFromSvgString (svgString : jsstring) : option metrics :=
  let first := indexOf svgString (lit "height=" ++ [dquote]) 0 in
  let last := indexOf svgString [dquote] (first + 8) in
  let height := String (substring svgString (first + 8) last) in
  let first := indexOf svgString (lit "width=" ++ [dquote]) 0 in
  let last := indexOf svgString [dquote] (first + 7) in
  let width := String (substring svgString (first + 7) last) in
  let first := indexOf svgString (lit "wrs:baseline=" ++ [dquote]) 0 in
  let last := indexOf svgString [dquote] (first + 14) in
  let baseline := String (substring svgString (first + 14) last) in
  if ToBoolean
       (String (typeof (Boolean (negb (loosely_equal width
                                         (String (lit "undefined")))))))
  then
    let arr : metrics := ∅ in
    let arr := <["cw" := width]> arr in
    let arr := <["ch" := height]> arr in
    let arr :=
      if negb (loosely_equal (String (typeof baseline))
                             (String (lit "undefined")))
      then <["cb" := baseline]> arr
      else arr in
    Some arr
  else None.

(** ** [getMetricsFromBytes] *)

(** The array being consumed and the function's variables. *)
Record locals := {
  bytes : list byte;
  width : value;
  height : value;
  baseline : value;
  dpi : value
}.

Definition parser (A : Type) : Type := locals -> outcome (A * locals).

Definition ret {A} (a : A) : parser A := fun st => Return (a, st).

Definition bind {A B} (m : parser A) (k : A -> parser B) : parser B :=
  fun st =>
    match m st with
    | Return (a, st') => k a st'
    | Throw e => Throw e
    | Diverge => Diverge
    end.

Declare Scope parser_scope.
Delimit Scope parser_scope with parser.
Notation "x <- m ;; k" := (bind m (fun x => k))
  (at level 100, m at next level, right associativity) : parser_scope.
Notation "m ;; k" := (bind m (fun _ => k))
  (at level 100, right associativity) : parser_scope.

(** A reader of util.js applied to [bytes]. *)
Definition call {A} (reader : Util.cursor A) : parser A := fun st =>
  match reader (bytes st) with
  | Return (a, rest) =>
      Return (a, {| bytes := rest; width := width st; height := height st;
                    baseline := baseline st; dpi := dpi st |})
  | Throw e => Throw e
  | Diverge => Diverge
  end.

Definition set_width (v : value) : parser unit := fun st =>
  Return (tt, {| bytes := bytes st; width := v; height := height st;
                 baseline := baseline st; dpi := dpi st |}).
Definition set_height (v : value) : parser unit := fun st =>
  Return (tt, {| bytes := bytes st; width := width st; height := v;
                 baseline := baseline st; dpi := dpi st |}).
Definition set_baseline (v : value) : parser unit := fun st =>
  Return (tt, {| bytes := bytes st; width := width st; height := height st;
                 baseline := v; dpi := dpi st |}).
Definition set_dpi (v : value) : parser unit := fun st =>
  Return (tt, {| bytes := bytes st; width := width st; height := height st;
                 baseline := baseline st; dpi := v |}).
Definition get_dpi : parser value := fun st => Return (dpi st, st).

(** The literal [39.37]. *)
Definition n39_37 : number := of_decimal false 3937 (-2).

(** The body of the [while] loop: one chunk. *)
Definition read_chunk : parser unit :=
  (len <- call Util.readInt32 ;;
   typ <- call Util.readInt32 ;;
   (if typ =? 0x49484452 then
      w <- call Util.readInt32 ;;
      set_width (Number (of_Z w)) ;;
      h <- call Util.readInt32 ;;
      set_height (Number (of_Z h)) ;;
      call Util.readInt32 ;;
      call Util.readByte ;;
      ret tt
    else if typ =? 0x62615345 then
      b <- call Util.readInt32 ;;
      set_baseline (Number (of_Z b))
    else if typ =? 0x70485973 then
      d <- call Util.readInt32 ;;
      set_dpi (Number (of_Z d)) ;;
      d <- get_dpi ;;
      set_dpi (Number (Math_round (ToNumber (divide d (Number n39_37))))) ;;
      call Util.readInt32 ;;
      call Util.readByte ;;
      ret tt
    else ret tt) ;;
   call Util.readInt32 ;;
   ret tt)%parser.

(** [while (bytes.length >= 4) { ... }], on fuel. *)
Fixpoint while_chunks (fuel : nat) : parser unit := fun st =>
  if (4 <=? length (bytes st))%nat then
    match fuel with
    | O => Diverge
    | S fuel' => (read_chunk ;; while_chunks fuel')%parser st
    end
  else Return (tt, st).

(** The array built after the loop, or [undefined]. *)
Definition result (st : locals) : option metrics :=
  if negb (loosely_equal (String (typeof (width st)))
                         (String (lit "undefined")))
  then
    let arr : metrics := ∅ in
    let arr := <["cw" := width st]> arr in
    let arr := <["ch" := height st]> arr in
    let arr := <["dpi" := dpi st]> arr in
    let arr := if ToBoolean (baseline st) then <["cb" := baseline st]> arr
               else arr in
    Some arr
  else None.

Definition start (input : list byte) : locals :=
  {| bytes := input; width := Undefined; height := Undefined;
     baseline := Undefined; dpi := Undefined |}.

(** Every turn of the loop takes at least one byte, so the length of the
    input is fuel enough. *)
Definition getMetricsFromBytes (input : list byte) : outcome (option metrics) :=
  match (call (Util.readBytes 8) ;; while_chunks (length input))%parser
          (start input) with
  | Return (_, st) => Return (result st)
  | Throw e => Throw e
  | Diverge => Diverge
  end.

(** ** [setImgSize] *)

(** Lines 46 to 71: the metrics of the response, by format and encoding. *)
Definition responseMetrics (cfg : configuration) (img : image) (uri : jsstring)
    (jsonResponse : bool) : outcome (option metrics) :=
  if jsonResponse then
    if bool_decide (imageFormat cfg = lit "svg") then
      if negb (bool_decide (saveMode cfg = lit "base64")) then
        Return (getMetricsFromSvgString uri)
      else
        let base64String :=
          substr (src img) (indexOf (src img) (lit "base64,") 0 + 7)
                 (jslength (src img)) in
        (bytes <- Util.b64ToByteArray base64String
                    (Some (jslength base64String)) ;;
         let svgString := map Byte.to_N bytes in
         Return (getMetricsFromSvgString svgString))%outcome
    else
      let base64String :=
        substr (src img) (indexOf (src img) (lit "base64,") 0 + 7)
               (jslength (src img)) in
      (bytes <- Util.b64ToByteArray base64String (Some 88) ;;
       getMetricsFromBytes bytes)%outcome
  else Return (Some (Util.urlToAssArray uri)).

(** Lines 72 to 86: the metrics, rescaled, written to the image. Reading an
    entry of [undefined] throws. *)
Definition applyMetrics (ar : option metrics) (img : image) : outcome image :=
  match ar with
  | None => Throw TypeError
  | Some ar =>
      let width := entry ar "cw" in
      if negb (ToBoolean width) then Return img
      else
        let height := entry ar "ch" in
        let baseline := entry ar "cb" in
        let dpi := entry ar "dpi" in
        let '(width, height, baseline) :=
          if ToBoolean dpi then
            (divide (times width (Number (of_Z 96))) dpi,
             divide (times height (Number (of_Z 96))) dpi,
             divide (times baseline (Number (of_Z 96))) dpi)
          else (width, height, baseline) in
        Return {| src := src img;
                  attr_width := Some width;
                  attr_height := Some height;
                  style_verticalAlign :=
                    Some (ToString (plus (plus (String (lit "-"))
                                               (minus height baseline))
                                         (String (lit "px"))));
                  style_maxWidth := style_maxWidth img |}
  end.

Definition setImgSize (cfg : configuration) (img : image) (uri : jsstring)
    (jsonResponse : bool) : outcome image :=
  (ar <- responseMetrics cfg img uri jsonResponse ;;
   applyMetrics ar img)%outcome.

(** ** [fixAfterResize] *)
Section Host.

(** The host's [decodeURIComponent]; it throws on a malformed escape. *)
Variable decodeURIComponent : jsstring -> outcome jsstring.

Definition fixAfterResize (cfg : configuration) (img : image) : outcome image :=
  let img := {| src := src img; attr_width := None; attr_height := None;
                style_verticalAlign := None;
                style_maxWidth := Some (lit "none") |} in
  if negb (indexOf (src img) (lit "data:image") 0 =? -1) then
    if bool_decide (imageFormat cfg = lit "svg") then
      (svg <- decodeURIComponent
                (substring (src img) 32 (jslength (src img))) ;;
       setImgSize cfg img svg true)%outcome
    else
      let base64 := substring (src img) 22 (jslength (src img)) in
      setImgSize cfg img base64 true
  else setImgSize cfg img (src img) false.

End Host.

End Image.

(** * The layout of a PNG payload *)
Module Png.
Import JS Image.

(** Four bytes holding a 32-bit field. *)
Record word := { b0 : byte; b1 : byte; b2 : byte; b3 : byte }.

Definition word_bytes (w : word) : list byte := [b0 w; b1 w; b2 w; b3 w].
Definition word_value (w : word) : Z :=
  Util.uint32 (b0 w) (b1 w) (b2 w) (b3 w).

(** A chunk: length, type, body and CRC trailer. *)
Record chunk := { len : word; tag : word; body : list byte; crc : word }.

Definition encode (c : chunk) : list byte :=
  word_bytes (len c) ++ word_bytes (tag c) ++ body c ++ word_bytes (crc c).

Definition well_formed (c : chunk) : Prop :=
  word_value (len c) = Z.of_nat (length (body c)).

Definition signature : list byte := [x89; x50; x4e; x47; x0d; x0a; x1a; x0a].

Definition IHDR : Z := 0x49484452.
Definition baSE : Z := 0x62615345.
Definition pHYs : Z := 0x70485973.

Definition has_tag (typ : Z) (c : chunk) : Prop := word_value (tag c) = typ.

(** The 32-bit field at an offset of a chunk body. *)
Definition field (bs : list byte) (i : nat) : Z :=
  match drop i bs with
  | a :: b :: c :: d :: _ => Util.uint32 a b c d
  | _ => 0
  end.

(** The number of body bytes the loop reads for a chunk of a type. *)
Definition taken (typ : Z) : nat :=
  if typ =? IHDR then 13 else if typ =? baSE then 4
  else if typ =? pHYs then 9 else 0.

(** A chunk is walked when the loop reads its body to the end. *)
Definition walked (c : chunk) : Prop :=
  length (body c) = taken (word_value (tag c)).

Definition with_bytes (rest : list byte) (st : locals) : locals :=
  {| bytes := rest; width := width st; height := height st;
     baseline := baseline st; dpi := dpi st |}.

(** The variables after a walked chunk. *)
Definition absorb (st : locals) (c : chunk) : locals :=
  let typ := word_value (tag c) in
  if typ =? IHDR then
    {| bytes := bytes st;
       width := Number (of_Z (field (body c) 0));
       height := Number (of_Z (field (body c) 4));
       baseline := baseline st; dpi := dpi st |}
  else if typ =? baSE then
    {| bytes := bytes st; width := width st; height := height st;
       baseline := Number (of_Z (field (body c) 0)); dpi := dpi st |}
  else if typ =? pHYs then
    {| bytes := bytes st; width := width st; height := height st;
       baseline := baseline st;
       dpi := Number (Math_round (div (of_Z (field (body c) 0)) n39_37)) |}
  else st.

End Png.

(** * Notions used in the statements *)
Section Notions.
Import JS Image.

(** [reads n m]: the computation [m] finishes, and when it returns it has
    taken at least [n] bytes. *)
Definition reads {A} (n : nat) (m : parser A) : Prop :=
  forall st,
    match m st with
    | Return (_, st') => (n + length (bytes st') <= length (bytes st))%nat
    | Throw _ => True
    | Diverge => False
    end.

(** [pat] occurs in [s] at position [i], and nowhere before. *)
Definition occurs_at (pat s : jsstring) (i : nat) : Prop :=
  take (length pat) (drop i s) = pat.

Definition first_at (pat s : jsstring) (i : nat) : Prop :=
  occurs_at pat s i /\ forall j, (j < i)%nat -> ~ occurs_at pat s j.

(** The first occurrence of [name] followed by a double quote is the start
    of [name"value"]. *)
Definition first_attribute (name value s : jsstring) : Prop :=
  exists pre post,
    s = pre ++ (name ++ [dquote]) ++ value ++ dquote :: post
    /\ first_at (name ++ [dquote]) s (length pre).

(** An entry of the metrics, rescaled to 96 dpi when [dpi] is truthy. *)
Definition scaled (ar : metrics) (key : string) : value :=
  if ToBoolean (entry ar "dpi") then
    divide (times (entry ar key) (Number (of_Z 96))) (entry ar "dpi")
  else entry ar key.

(** A value that is a number. *)
Definition is_number (v : value) : Prop := exists x, v = Number x.

(** The prefix of a PNG data URI. *)
Definition png_prefix : jsstring := lit "data:image/png;base64,".

(** The image as [fixAfterResize] leaves it before sizing it again. *)
Definition cleared (img : image) : image :=
  {| src := src img; attr_width := None; attr_height := None;
     style_verticalAlign := None; style_maxWidth := Some (lit "none") |}.

End Notions.

(** * Sample inputs *)
Module Samples.
Import JS Png.

Definition W (a b c d : byte) : word := {| b0 := a; b1 := b; b2 := c; b3 := d |}.

(** A header chunk: 100 by 50 pixels. *)
Definition IHDR_100x50 : chunk :=
  {| len := W x00 x00 x00 x0d; tag := W x49 x48 x44 x52;
     body := [x00; x00; x00; x64; x00; x00; x00; x32; x08; x06; x00; x00; x00];
     crc := W xaa x35 x7e xbe |}.

(** A baseline chunk: 40. *)
Definition baSE_40 : chunk :=
  {| len := W x00 x00 x00 x04; tag := W x62 x61 x53 x45;
     body := [x00; x00; x00; x28];
     crc := W xf5 x91 x3a x64 |}.

(** Resolution chunks: 3780 and 7559 pixels per metre (96 and 192 dpi). *)
Definition pHYs_3780 : chunk :=
  {| len := W x00 x00 x00 x09; tag := W x70 x48 x59 x73;
     body := [x00; x00; x0e; xc4; x00; x00; x0e; xc4; x01];
     crc := W x95 x2b x0e x1b |}.

Definition pHYs_7559 : chunk :=
  {| len := W x00 x00 x00 x09; tag := W x70 x48 x59 x73;
     body := [x00; x00; x1d; x87; x00; x00; x1d; x87; x01];
     crc := W x8f xe5 xf1 x65 |}.

(** A chromaticity chunk, with its 32 bytes of body. *)
Definition cHRM : chunk :=
  {| len := W x00 x00 x00 x20; tag := W x63 x48 x52 x4d;
     body := [x00; x00; x7a; x26; x00; x00; x80; x84;
              x00; x00; xfa; x00; x00; x00; x80; xe8;
              x00; x00; x75; x30; x00; x00; xea; x60;
              x00; x00; x3a; x98; x00; x00; x17; x70];
     crc := W x9c xba x51 x3c |}.

Definition IEND : chunk :=
  {| len := W x00 x00 x00 x00; tag := W x49 x45 x4e x44;
     body := []; crc := W xae x42 x60 x82 |}.

(** A private chunk whose body holds, from its ninth byte on, the bytes
    [IHDR] and a 7 by 9 header. *)
Definition prVt : chunk :=
  {| len := W x00 x00 x00 x19; tag := W x70 x72 x56 x74;
     body := [x00; x00; x00; x00; x00; x00; x00; x0d;
              x49; x48; x44; x52; x00; x00; x00; x07;
              x00; x00; x00; x09; x08; x06; x00; x00; x00];
     crc := W x21 x62 xea xf3 |}.

(** Private chunks without a body. *)
Definition prVa : chunk :=
  {| len := W x00 x00 x00 x00; tag := W x70 x72 x56 x61;
     body := []; crc := W xcb x5a x68 xa2 |}.
Definition prVb : chunk :=
  {| len := W x00 x00 x00 x00; tag := W x70 x72 x56 x62;
     body := []; crc := W x52 x53 x39 x18 |}.
Definition prVc : chunk :=
  {| len := W x00 x00 x00 x00; tag := W x70 x72 x56 x63;
     body := []; crc := W x25 x54 x09 x8e |}.

Definition png (cs : list chunk) : list byte :=
  signature ++ concat (map encode cs).

Definition png_cHRM : list byte := png [IHDR_100x50; cHRM; baSE_40; IEND].
Definition png_prVt : list byte := png [IHDR_100x50; prVt; IEND].
Definition png_two_pHYs : list byte := png [IHDR_100x50; pHYs_3780; pHYs_7559].
Definition png_IHDR_only : list byte := png [IHDR_100x50].
Definition png_pHYs_only : list byte := png [pHYs_3780].
Definition png_late_pHYs : list byte :=
  png [IHDR_100x50; baSE_40; prVa; prVb; prVc; pHYs_7559].

(** [png_late_pHYs] in base64. *)
Definition late_pHYs_base64 : jsstring :=
  lit ("iVBORw0KGgoAAAANSUhEUgAAAGQAAAAyCAYAAACqNX6+AAAABGJhU0UAAAAo9ZE6ZAAAAABw"
       +:+ "clZhy1poogAAAABwclZiUlM5GAAAAABwclZjJVQJjgAAAAlwSFlzAAAdhwAAHYcBj+XxZQ==").

Definition blank (source : jsstring) : image :=
  {| src := source; attr_width := None; attr_height := None;
     style_verticalAlign := None; style_maxWidth := None |}.

Definition svg_plain : configuration :=
  {| imageFormat := lit "svg"; saveMode := lit "xml" |}.

Definition png_base64 : configuration :=
  {| imageFormat := lit "png"; saveMode := lit "base64" |}.

(** An SVG tag with the three attributes. *)
Definition svg_sample : jsstring :=
  lit "<svg width=" ++ [dquote] ++ lit "120" ++ [dquote]
  ++ lit " height=" ++ [dquote] ++ lit "40" ++ [dquote]
  ++ lit " wrs:baseline=" ++ [dquote] ++ lit "30" ++ [dquote] ++ lit ">".

(** The same with a [stroke-width] attribute in front. *)
Definition svg_stroke : jsstring :=
  lit "<svg stroke-width=" ++ [dquote] ++ lit "2" ++ [dquote]
  ++ lit " width=" ++ [dquote] ++ lit "120" ++ [dquote]
  ++ lit " height=" ++ [dquote] ++ lit "40" ++ [dquote]
  ++ lit " wrs:baseline=" ++ [dquote] ++ lit "30" ++ [dquote] ++ lit ">".

(** An SVG tag without a [width] attribute. *)
Definition svg_no_width : jsstring :=
  lit "<svg height=" ++ [dquote] ++ lit "40" ++ [dquote] ++ lit ">".

End Samples.

(** * Notions used in the further properties *)

Import JS Image Png Samples.

(** The integer a number is, if it is one. *)
Definition integer_of (x : number) : option Z :=
  match x with
  | S754_zero _ => Some 0
  | S754_finite s m e =>
      let sign := if s then -1 else 1 in
      if 0 <=? e then Some (sign * (Zpos m * 2 ^ e))
      else if Zpos m mod 2 ^ (- e) =? 0 then Some (sign * (Zpos m / 2 ^ (- e)))
      else None
  | _ => None
  end.

(** The integer held by an entry of the array. *)
Definition entry_integer (ar : metrics) (key : string) : option Z :=
  match entry ar key with
  | Number x => integer_of x
  | _ => None
  end.

#[global] Instance has_tag_dec (typ : Z) (c : chunk) : Decision (has_tag typ c) :=
  decide (word_value (tag c) = typ).

(** The last chunk of a type. *)
Definition last_tagged (typ : Z) (cs : list chunk) : option chunk :=
  last (filter (has_tag typ) cs).

(** The array read off a list of chunks: the dimensions of the last header
    chunk, the resolution of the last [pHYs] chunk, the baseline of the last
    [baSE] chunk unless it is zero; nothing without a header chunk. *)
Definition metrics_of_chunks (cs : list chunk) : option metrics :=
  match last_tagged IHDR cs with
  | None => None
  | Some hd =>
      let arr : metrics := ∅ in
      let arr := <["cw" := Number (of_Z (field (body hd) 0))]> arr in
      let arr := <["ch" := Number (of_Z (field (body hd) 4))]> arr in
      let arr :=
        <["dpi" := match last_tagged pHYs cs with
                   | Some c =>
                       Number (Math_round (div (of_Z (field (body c) 0)) n39_37))
                   | None => Undefined
                   end]> arr in
      Some match last_tagged baSE cs with
           | Some c =>
               if field (body c) 0 =? 0 then arr
               else <["cb" := Number (of_Z (field (body c) 0))]> arr
           | None => arr
           end
  end.


(** The big-endian bytes of a number below 2^32. *)
Definition u32 (z : Z) : word :=
  {| b0 := Util.byte_of (z / 2 ^ 24); b1 := Util.byte_of (z / 2 ^ 16);
     b2 := Util.byte_of (z / 2 ^ 8); b3 := Util.byte_of z |}.

(** The chunks holding a width and a height, a baseline, a resolution in
    pixels per metre; the trailers are left at zero. *)
Definition header_chunk (w h : Z) : chunk :=
  {| len := u32 13; tag := W x49 x48 x44 x52;
     body := word_bytes (u32 w) ++ word_bytes (u32 h)
             ++ [x08; x06; x00; x00; x00];
     crc := u32 0 |}.

Definition baseline_chunk (b : Z) : chunk :=
  {| len := u32 4; tag := W x62 x61 x53 x45;
     body := word_bytes (u32 b); crc := u32 0 |}.

Definition resolution_chunk (x : Z) : chunk :=
  {| len := u32 9; tag := W x70 x48 x59 x73;
     body := word_bytes (u32 x) ++ word_bytes (u32 x) ++ [x01];
     crc := u32 0 |}.

(** A payload holding the four metrics. *)
Definition png_of_metrics (w h b x : Z) : list byte :=
  png [header_chunk w h; baseline_chunk b; resolution_chunk x].

(** A value made from what [readInt32] returned. *)
Definition integer_number (v : value) : Prop :=
  exists z, v = Number (of_Z z).

(** A resolution computed from what [readInt32] returned. *)
Definition dpi_number (v : value) : Prop :=
  exists z, v = Number (Math_round (div (of_Z z) n39_37)).

(** What holds of the variables between two turns of the chunk loop:
    [width] and [height] are assigned together. *)
Definition loop_invariant (st : locals) : Prop :=
  (width st = Undefined /\ height st = Undefined
   \/ integer_number (width st) /\ integer_number (height st))
  /\ (baseline st = Undefined \/ integer_number (baseline st))
  /\ (dpi st = Undefined \/ dpi_number (dpi st)).

(** The prefix of an SVG data URI, 32 characters. *)
Definition svg_prefix : jsstring := lit "data:image/svg+xml;charset=utf8,".

(** An image that already carries a size. *)
Definition sized_100x50 (source : jsstring) : image :=
  {| src := source;
     attr_width := Some (Number (of_Z 100));
     attr_height := Some (Number (of_Z 50));
     style_verticalAlign := Some (lit "-10px");
     style_maxWidth := None |}.

(** A legacy URL of the image service. *)
Definition legacy_url : jsstring :=
  lit "http://example.org/showimage?formula=x&cw=120&ch=40&cb=30".

(** A text without a double quote. *)
Definition svg_unquoted : jsstring := lit "<svg width=120 height=40>".

(** * Properties *)

Import JS Image Png Samples.

(** ** The conversions on samples *)

Example number_to_string_samples :
  NumberToString (of_Z 10) = lit "10"
  /\ NumberToString (of_decimal false 1 (-1)) = lit "0.1"
  /\ NumberToString (div (of_Z 9600) (of_Z 180)) = lit "53.333333333333336"
  /\ NumberToString (of_decimal false 1 21) = lit "1e+21"
  /\ NumberToString NaN = lit "NaN".
Proof. repeat (split; [by vm_compute|]). by vm_compute. Qed.

Example string_to_number_samples :
  StringToNumber (lit "120") = of_Z 120
  /\ StringToNumber (lit " 4e1 ") = of_Z 40
  /\ StringToNumber (lit "0x1e") = of_Z 30
  /\ StringToNumber (lit "eight=") = NaN
  /\ StringToNumber [] = S754_zero false.
Proof. repeat (split; [by vm_compute|]). by vm_compute. Qed.

Example math_round_samples :
  Math_round (of_decimal false 25 (-1)) = of_Z 3
  /\ Math_round (of_decimal true 25 (-1)) = of_Z (-2)
  /\ Math_round (div (of_Z 3780) n39_37) = of_Z 96
  /\ Math_round (div (of_Z 7559) n39_37) = of_Z 192.
Proof. repeat (split; [by vm_compute|]). by vm_compute. Qed.

Example string_method_samples :
  indexOf (lit "a=1&b=2") (lit "=") 2 = 5
  /\ indexOf (lit "a=1&b=2") (lit "c") 0 = -1
  /\ substring (lit "a=1&b=2") 6 (-1) = lit "a=1&b="
  /\ substr (lit "a=1&b=2") 4 7 = lit "b=2".
Proof. repeat (split; [by vm_compute|]). by vm_compute. Qed.

Example base64_samples :
  Util.b64ToByteArray (lit "iVBORw0KGgo=") None
  = Return [x89; x50; x4e; x47; x0d; x0a; x1a; x0a]
  /\ Util.b64ToByteArray (lit "iVBORw0KGgo=") (Some 4)
     = Return [x89; x50; x4e; x47]
  /\ Util.b64ToByteArray (lit "iVBO*w0KGgo=") None = Throw InvalidEncoding.
Proof. repeat (split; [by vm_compute|]). by vm_compute. Qed.

Example url_samples :
  Util.urlToAssArray (lit "showimage?formula=x&cw=100&ch=50&cb=40")
  = <["cb" := String (lit "40")]> (<["ch" := String (lit "50")]>
      (<["cw" := String (lit "100")]> ∅)).
Proof. by vm_compute. Qed.

(** ** The chunk loop on walked chunks *)

Lemma with_bytes_id st : with_bytes (bytes st) st = st.
Proof. by destruct st. Qed.

Lemma with_bytes_twice r r' st : with_bytes r (with_bytes r' st) = with_bytes r st.
Proof. done. Qed.

Lemma absorb_with_bytes r st c :
  absorb (with_bytes r st) c = with_bytes r (absorb st c).
Proof. unfold absorb. by repeat case_match. Qed.

Lemma foldl_absorb_with_bytes r cs : forall st,
  foldl absorb (with_bytes r st) cs = with_bytes r (foldl absorb st cs).
Proof.
  induction cs as [|c cs IH]; intros st; [done|].
  simpl. by rewrite absorb_with_bytes, IH.
Qed.

Ltac split_body b :=
  repeat (destruct b as [|? b]; [discriminate|]); destruct b; [|discriminate].

Lemma chunk_walked st c rest :
  walked c -> bytes st = encode c ++ rest ->
  read_chunk st = Return (tt, with_bytes rest (absorb st c)).
Proof.
  destruct st as [bs w h b d], c as [[l0 l1 l2 l3] [t0 t1 t2 t3] bd [c0 c1 c2 c3]].
  unfold walked, taken, absorb, encode, word_value, word_bytes; simpl.
  intros Hlen ->.
  unfold read_chunk, bind, call, Util.readInt32; simpl.
  fold IHDR baSE pHYs.
  destruct (Util.uint32 t0 t1 t2 t3 =? IHDR).
  { split_body bd. reflexivity. }
  destruct (Util.uint32 t0 t1 t2 t3 =? baSE).
  { split_body bd. reflexivity. }
  destruct (Util.uint32 t0 t1 t2 t3 =? pHYs).
  { split_body bd. reflexivity. }
  split_body bd. reflexivity.
Qed.

Lemma encode_length c : (12 <= length (encode c))%nat.
Proof.
  unfold encode, word_bytes. rewrite !length_app. simpl. lia.
Qed.

Lemma payload_length cs : (12 * length cs <= length (concat (map encode cs)))%nat.
Proof.
  induction cs as [|c cs IH]; [simpl; lia|].
  rewrite map_cons, concat_cons, length_app, length_cons.
  pose proof (encode_length c). lia.
Qed.

Lemma while_chunks_unfold fuel st :
  while_chunks fuel st =
  if (4 <=? length (bytes st))%nat then
    match fuel with
    | O => Diverge
    | S fuel' => bind read_chunk (fun _ => while_chunks fuel') st
    end
  else Return (tt, st).
Proof. by destruct fuel. Qed.

(** The loop over walked chunks: every chunk is absorbed in turn, and the
    loop stops at a tail of fewer than four bytes. *)
Lemma while_walked cs : forall st tail fuel,
  Forall walked cs -> (length tail < 4)%nat ->
  bytes st = concat (map encode cs) ++ tail ->
  (length cs <= fuel)%nat ->
  while_chunks fuel st = Return (tt, with_bytes tail (foldl absorb st cs)).
Proof.
  induction cs as [|c cs IH]; intros st tail fuel Hw Ht Hb Hf.
  - simpl in Hb.
    assert (E : (4 <=? length (bytes st))%nat = false)
      by (apply Nat.leb_gt; rewrite Hb; lia).
    by rewrite while_chunks_unfold, E, <- Hb, with_bytes_id.
  - inversion Hw as [|? ? Hc Hcs]; subst.
    rewrite map_cons, concat_cons, <- app_assoc in Hb.
    destruct fuel as [|fuel]; [simpl in Hf; lia|].
    assert (E : (4 <=? length (bytes st))%nat = true).
    { apply Nat.leb_le. rewrite Hb, length_app.
      pose proof (encode_length c). lia. }
    rewrite while_chunks_unfold, E.
    unfold bind. rewrite (chunk_walked _ _ _ Hc Hb).
    rewrite (IH _ tail); try done.
    + by rewrite foldl_absorb_with_bytes, with_bytes_twice.
    + simpl in Hf. lia.
Qed.

(** The variables of the loop do not depend on the bytes it is given. *)
Lemma result_with_bytes r st : result (with_bytes r st) = result st.
Proof. done. Qed.

Lemma getMetricsFromBytes_walked cs tail :
  Forall walked cs -> (length tail < 4)%nat ->
  getMetricsFromBytes (signature ++ concat (map encode cs) ++ tail)
  = Return (result (foldl absorb (start []) cs)).
Proof.
  intros Hw Ht. unfold getMetricsFromBytes.
  set (input := signature ++ _).
  unfold bind, call.
  assert (Hr : Util.readBytes 8 (bytes (start input))
               = Return (signature, concat (map encode cs) ++ tail)).
  { unfold Util.readBytes. subst input. reflexivity. }
  rewrite Hr.
  change (while_chunks (length input) _)
    with (while_chunks (length input)
            (with_bytes (concat (map encode cs) ++ tail) (start []))).
  rewrite (while_walked cs _ tail); try done.
  - by rewrite foldl_absorb_with_bytes, with_bytes_twice, result_with_bytes.
  - subst input. rewrite !length_app. pose proof (payload_length cs). simpl. lia.
Qed.

(** ** What a turn of the loop reads *)

Lemma reads_ret {A} (a : A) : reads 0 (ret a).
Proof. intros st. simpl. lia. Qed.

Lemma reads_bind {A B} n k (m : parser A) (f : A -> parser B) :
  reads n m -> (forall a, reads k (f a)) -> reads (n + k) (bind m f).
Proof.
  intros Hm Hf st. unfold bind. specialize (Hm st).
  destruct (m st) as [[a st1]| |]; try done.
  specialize (Hf a st1). destruct (f a st1) as [[b st2]| |]; try done. lia.
Qed.

Lemma reads_weaken {A} n k (m : parser A) :
  reads n m -> (k <= n)%nat -> reads k m.
Proof.
  intros Hm Hk st. specialize (Hm st).
  destruct (m st) as [[a st1]| |]; try done. lia.
Qed.

Lemma reads_readInt32 : reads 4 (call Util.readInt32).
Proof.
  intros [bs w h b d]. unfold call, Util.readInt32; simpl.
  destruct bs as [|? [|? [|? [|? bs]]]]; simpl; try done; lia.
Qed.

Lemma reads_readByte : reads 1 (call Util.readByte).
Proof.
  intros [bs w h b d]. unfold call, Util.readByte; simpl.
  destruct bs; simpl; try done; lia.
Qed.

Lemma reads_readBytes n : reads n (call (Util.readBytes n)).
Proof.
  intros [bs w h b d]. unfold call, Util.readBytes; simpl.
  destruct (n <=? length bs)%nat eqn:E; simpl; try done.
  apply Nat.leb_le in E. rewrite length_drop. lia.
Qed.

Lemma reads_set_width v : reads 0 (set_width v).
Proof. intros st. simpl. lia. Qed.
Lemma reads_set_height v : reads 0 (set_height v).
Proof. intros st. simpl. lia. Qed.
Lemma reads_set_baseline v : reads 0 (set_baseline v).
Proof. intros st. simpl. lia. Qed.
Lemma reads_set_dpi v : reads 0 (set_dpi v).
Proof. intros st. simpl. lia. Qed.
Lemma reads_get_dpi : reads 0 get_dpi.
Proof. intros st. simpl. lia. Qed.

Create HintDb reads.
#[local] Hint Resolve reads_ret reads_readInt32 reads_readByte reads_set_width
  reads_set_height reads_set_baseline reads_set_dpi reads_get_dpi : reads.

(** A computation built from the readers and assignments finishes. *)
Ltac reads0 :=
  lazymatch goal with
  | |- reads 0 (bind _ _) =>
      apply (reads_bind 0 0); [reads0|intros ?; reads0]
  | |- reads 0 (if ?c then _ else _) => destruct c; reads0
  | |- reads 0 _ =>
      eapply reads_weaken; [eauto with reads|apply Nat.le_0_l]
  end.

(** One turn takes the length, the type and the trailer at least. *)
Lemma reads_read_chunk : reads 12 read_chunk.
Proof.
  unfold read_chunk.
  apply (reads_bind 4 8); [auto with reads|intros len].
  apply (reads_bind 4 4); [auto with reads|intros typ].
  apply (reads_bind 0 4); [reads0|intros _].
  apply (reads_bind 4 0); auto with reads.
Qed.

(** The loop on enough fuel ends, by an exception of a reader or with
    fewer than four bytes left. *)
Lemma while_chunks_ends fuel : forall st,
  (length (bytes st) <= fuel)%nat ->
  match while_chunks fuel st with
  | Return (_, st') => (length (bytes st') < 4)%nat
  | Throw _ => True
  | Diverge => False
  end.
Proof.
  induction fuel as [|fuel IH]; intros st Hf; rewrite while_chunks_unfold;
    destruct (4 <=? length (bytes st))%nat eqn:E;
    try (apply Nat.leb_gt in E; exact E); apply Nat.leb_le in E; [lia|].
  unfold bind. pose proof (reads_read_chunk st) as Hc.
  destruct (read_chunk st) as [[[] st1]| |]; try done.
  apply IH. lia.
Qed.

(** More fuel than enough does not change the outcome. *)
Lemma while_chunks_fuel fuel : forall fuel' st,
  (length (bytes st) <= fuel)%nat -> (fuel <= fuel')%nat ->
  while_chunks fuel' st = while_chunks fuel st.
Proof.
  induction fuel as [|fuel IH]; intros fuel' st Hf Hle;
    rewrite (while_chunks_unfold fuel'), (while_chunks_unfold _ st);
    destruct (4 <=? length (bytes st))%nat eqn:E; try done;
    apply Nat.leb_le in E; [lia|].
  destruct fuel' as [|fuel']; [lia|].
  unfold bind. pose proof (reads_read_chunk st) as Hc.
  destruct (read_chunk st) as [[[] st1]| |]; try done.
  apply IH; lia.
Qed.

(** C8: the chunk loop terminates on every input. A turn that returns has
    taken at least twelve bytes (length, type and trailer); below four bytes
    the loop is over at once, in the state it is in, without an exception;
    on fuel of the length of the input the loop ends, by an exception of a
    reader or with fewer than four bytes left, and more fuel does not change
    the outcome; [getMetricsFromBytes] therefore always finishes. *)
Theorem chunk_loop_terminates (st : locals) (input : list byte) :
  (forall st', read_chunk st = Return (tt, st') ->
     (12 + length (bytes st') <= length (bytes st))%nat)
  /\ ((length (bytes st) < 4)%nat ->
      forall fuel, while_chunks fuel st = Return (tt, st))
  /\ (exists r,
        (forall fuel, (length (bytes st) <= fuel)%nat ->
                      while_chunks fuel st = r)
        /\ r <> Diverge
        /\ forall st', r = Return (tt, st') -> (length (bytes st') < 4)%nat)
  /\ getMetricsFromBytes input <> Diverge.
Proof.
  repeat split.
  - intros st' H. pose proof (reads_read_chunk st) as Hc. by rewrite H in Hc.
  - intros H fuel. rewrite while_chunks_unfold.
    by destruct (Nat.leb_spec 4 (length (bytes st))); [lia|].
  - exists (while_chunks (length (bytes st)) st).
    pose proof (while_chunks_ends _ st (Nat.le_refl _)) as He.
    repeat split.
    + intros fuel Hf. by apply while_chunks_fuel.
    + intros Hd. by rewrite Hd in He.
    + intros st' Hr. by rewrite Hr in He.
  - unfold getMetricsFromBytes, bind.
    pose proof (reads_readBytes 8 (start input)) as Hs.
    destruct (call (Util.readBytes 8) (start input)) as [[sig st1]| |]; try done.
    simpl in Hs.
    pose proof (while_chunks_ends (length input) st1 ltac:(lia)) as He.
    by destruct (while_chunks (length input) st1) as [[[] st2]| |].
Qed.

(** ** [indexOf] and [substring] *)

Lemma is_prefix_occurs pat s : is_prefix pat s = true <-> occurs_at pat s 0.
Proof. unfold is_prefix, occurs_at. rewrite bool_decide_eq_true. by rewrite drop_0. Qed.

Lemma occurs_at_S pat c s i : occurs_at pat (c :: s) (S i) <-> occurs_at pat s i.
Proof. done. Qed.

Lemma occurs_at_nil pat i : occurs_at pat [] i -> pat = [].
Proof. unfold occurs_at. rewrite drop_nil, take_nil. done. Qed.

Lemma first_at_S pat c s i : first_at pat (c :: s) (S i) -> first_at pat s i.
Proof.
  intros [Ho Hn]. split; [done|].
  intros j Hj Hoj. apply (Hn (S j)); [lia|done].
Qed.

(** [index_from] finds the first occurrence. *)
Lemma index_from_first pat i : forall s k,
  first_at pat s i -> index_from pat s k = Some (k + i)%nat.
Proof.
  induction i as [|i IH]; intros s k [Ho Hn].
  - apply is_prefix_occurs in Ho.
    destruct s; simpl; rewrite Ho; f_equal; lia.
  - assert (is_prefix pat s = false) as Hp.
    { apply not_true_is_false. intros Hp. apply is_prefix_occurs in Hp.
      apply (Hn 0%nat); [lia|done]. }
    destruct s as [|c s].
    + apply occurs_at_nil in Ho. subst pat. done.
    + simpl. rewrite Hp. rewrite (IH s (S k)); [f_equal; lia|].
      by apply (first_at_S _ c).
Qed.

Lemma index_from_Some pat s : forall k j,
  index_from pat s k = Some j ->
  exists i, j = (k + i)%nat /\ first_at pat s i.
Proof.
  induction s as [|c s IH]; intros k j; simpl.
  - destruct (is_prefix pat []) eqn:Hp; [|done].
    intros [= <-]. exists 0%nat. split; [lia|].
    split; [by apply is_prefix_occurs|intros; lia].
  - destruct (is_prefix pat (c :: s)) eqn:Hp.
    + intros [= <-]. exists 0%nat. split; [lia|].
      split; [by apply is_prefix_occurs|intros; lia].
    + intros H. apply IH in H as (i & -> & Ho & Hn).
      exists (S i). split; [lia|]. split; [done|].
      intros [|j] Hj Hoj.
      * apply is_prefix_occurs in Hoj. congruence.
      * apply (Hn j); [lia|done].
Qed.

Lemma indexOf_from s pat k i :
  (k <= length s)%nat -> first_at pat (drop k s) i ->
  indexOf s pat (Z.of_nat k) = Z.of_nat (k + i).
Proof.
  intros Hk Hf. unfold indexOf, clamp, jslength.
  replace (Z.to_nat (Z.min (Z.max (Z.of_nat k) 0) (Z.of_nat (length s)))) with k by lia.
  by rewrite (index_from_first _ i).
Qed.

Lemma indexOf_first s pat i :
  first_at pat s i -> indexOf s pat 0 = Z.of_nat i.
Proof.
  intros Hf. by apply (indexOf_from s pat 0 i); [lia|].
Qed.

(** The first occurrence found by evaluation. *)
Lemma first_at_index_from pat s i :
  index_from pat s 0 = Some i -> first_at pat s i.
Proof. intros H. by apply index_from_Some in H as (i' & -> & H). Qed.

Lemma first_at_char (c : N) v r : c ∉ v -> first_at [c] (v ++ c :: r) (length v).
Proof.
  intros Hc. split.
  - unfold occurs_at. by rewrite drop_app_length.
  - intros j Hj. unfold occurs_at. simpl.
    rewrite drop_app_le by lia.
    destruct (drop j v) as [|x v'] eqn:Hd.
    { apply (f_equal length) in Hd. rewrite length_drop in Hd. simpl in Hd. lia. }
    simpl. intros [= ->]. apply Hc.
    apply (subseteq_drop j v). rewrite Hd. left.
Qed.

Lemma substring_span s a b :
  (a <= b)%nat -> (b <= length s)%nat ->
  substring s (Z.of_nat a) (Z.of_nat b) = take (b - a) (drop a s).
Proof.
  intros Hab Hb. unfold substring, clamp, jslength.
  repeat f_equal; lia.
Qed.

(** The value of the first attribute of a name: the text between the quote
    that follows the name and the next quote. *)
Lemma attribute_value name value s (n : Z) :
  first_attribute name value s -> dquote ∉ value ->
  n = Z.of_nat (length name + 1) ->
  let first := indexOf s (name ++ [dquote]) 0 in
  let last := indexOf s [dquote] (first + n) in
  substring s (first + n) last = value.
Proof.
  intros (pre & post & Hs & Hf) Hq -> first last.
  subst first last. rewrite (indexOf_first _ _ _ Hf).
  set (k := (length pre + (length name + 1))%nat).
  assert (Hd : drop k s = value ++ dquote :: post).
  { subst s k. rewrite drop_app_add'; [|done].
    rewrite drop_app_length'; [done|]. rewrite length_app. simpl. lia. }
  assert (Hk : (k + length value < length s)%nat).
  { apply (f_equal length) in Hd. rewrite length_drop, length_app in Hd.
    simpl in Hd. lia. }
  replace (Z.of_nat (length pre) + Z.of_nat (length name + 1)) with (Z.of_nat k) by lia.
  rewrite (indexOf_from s [dquote] k (length value)); [|lia|].
  2:{ rewrite Hd. by apply first_at_char. }
  rewrite substring_span by lia.
  rewrite Hd. replace (k + length value - k)%nat with (length value) by lia.
  by rewrite take_app_length.
Qed.

Lemma occurs_at_app pat p r j :
  (j + length pat <= length p)%nat ->
  occurs_at pat (p ++ r) j <-> occurs_at pat p j.
Proof.
  intros H. unfold occurs_at.
  rewrite drop_app_le by lia. rewrite take_app_le; [done|].
  rewrite length_drop. lia.
Qed.

(** A first occurrence inside a prefix stays the first one. *)
Lemma first_at_app pat p r i :
  (i + length pat <= length p)%nat ->
  first_at pat p i -> first_at pat (p ++ r) i.
Proof.
  intros H [Ho Hn]. split.
  - by apply occurs_at_app.
  - intros j Hj Hoj. apply (Hn j Hj). apply occurs_at_app in Hoj; [done|lia].
Qed.

Lemma substr_tail s k :
  (k <= length s)%nat ->
  substr s (Z.of_nat k) (jslength s) = drop k s.
Proof.
  intros Hk. unfold substr, jslength.
  destruct (Z.ltb_spec (Z.of_nat k) 0); [lia|].
  replace (Z.min (Z.of_nat k) (Z.of_nat (length s))) with (Z.of_nat k) by lia.
  rewrite Nat2Z.id. apply take_ge. rewrite length_drop. lia.
Qed.

(** The text after the first [base64,]. *)
Lemma after_base64 s pre payload :
  s = pre ++ lit "base64," ++ payload ->
  first_at (lit "base64,") s (length pre) ->
  substr s (indexOf s (lit "base64,") 0 + 7) (jslength s) = payload.
Proof.
  intros Hs Hf. rewrite (indexOf_first _ _ _ Hf).
  replace (Z.of_nat (length pre) + 7) with (Z.of_nat (length pre + 7)) by lia.
  rewrite substr_tail.
  - subst s. rewrite drop_app_add'; [|done]. by rewrite drop_app_length'.
  - subst s. rewrite !length_app. simpl. lia.
Qed.

(** C9: for every string, [getMetricsFromSvgString] returns an array with
    [cw] and [ch] (and [cb]) set to strings: its guard on the width is true
    whatever the width is, so it never returns [undefined], which the PNG
    parser does on an input without a header chunk. *)
Theorem svg_metrics_always_defined (svgString : jsstring) (width : value) :
  ToBoolean (String (typeof (Boolean (negb (loosely_equal width
                                             (String (lit "undefined")))))))
  = true
  /\ (exists w h b,
        getMetricsFromSvgString svgString
        = Some (<["cb" := String b]> (<["ch" := String h]>
                 (<["cw" := String w]> ∅))))
  /\ getMetricsFromBytes signature = Return None.
Proof.
  split; [done|]. split; [|done].
  unfold getMetricsFromSvgString. eauto.
Qed.

(** C10: with a JSON response, in the raster branch and in the SVG branch
    with [saveMode] base64, the outcome of [setImgSize] is the same for any
    two [uri] arguments: the payload is the text of the image's own [src]
    after its first [base64,]. *)
Theorem setImgSize_ignores_uri (cfg : configuration) (img : image)
    (uri1 uri2 : jsstring) :
  imageFormat cfg <> lit "svg"
  \/ (imageFormat cfg = lit "svg" /\ saveMode cfg = lit "base64") ->
  setImgSize cfg img uri1 true = setImgSize cfg img uri2 true
  /\ forall pre payload,
       src img = pre ++ lit "base64," ++ payload ->
       first_at (lit "base64,") (src img) (length pre) ->
       substr (src img) (indexOf (src img) (lit "base64,") 0 + 7)
              (jslength (src img)) = payload.
Proof.
  intros H. split; [|intros pre payload; apply after_base64].
  unfold setImgSize, responseMetrics.
  destruct H as [H|[H1 H2]].
  - by rewrite bool_decide_eq_false_2.
  - rewrite bool_decide_eq_true_2 by done.
    by rewrite (bool_decide_eq_true_2 _ H2).
Qed.

(** What the sizing step writes once the width is truthy. *)
Lemma applyMetrics_writes (ar : metrics) (img : image) :
  ToBoolean (entry ar "cw") = true ->
  applyMetrics (Some ar) img
  = Return {| src := src img;
              attr_width := Some (scaled ar "cw");
              attr_height := Some (scaled ar "ch");
              style_verticalAlign :=
                Some ((lit "-"
                       ++ NumberToString (sub (ToNumber (scaled ar "ch"))
                                              (ToNumber (scaled ar "cb"))))
                      ++ lit "px");
              style_maxWidth := style_maxWidth img |}.
Proof.
  intros Hw. unfold applyMetrics, scaled. rewrite Hw. simpl negb. cbv iota.
  by destruct (ToBoolean (entry ar "dpi")).
Qed.

(** ** The attributes of an SVG text *)

Lemma not_elem_of_forallb (c : N) v :
  forallb (fun x => negb (x =? c)%N) v = true -> c ∉ v.
Proof.
  induction v as [|x v IH]; simpl; [intros _; apply not_elem_of_nil|].
  intros [Hx Hv]%andb_true_iff. apply not_elem_of_cons. split; [|auto].
  apply negb_true_iff, N.eqb_neq in Hx. congruence.
Qed.

Lemma svg_metrics_first (s : jsstring) (w h b : jsstring) :
  first_attribute (lit "width=") w s -> dquote ∉ w ->
  first_attribute (lit "height=") h s -> dquote ∉ h ->
  first_attribute (lit "wrs:baseline=") b s -> dquote ∉ b ->
  getMetricsFromSvgString s
  = Some (<["cb" := String b]> (<["ch" := String h]> (<["cw" := String w]> ∅))).
Proof.
  intros Hw Hwq Hh Hhq Hb Hbq. unfold getMetricsFromSvgString.
  rewrite (attribute_value _ _ _ 8 Hh Hhq eq_refl).
  rewrite (attribute_value _ _ _ 7 Hw Hwq eq_refl).
  rewrite (attribute_value _ _ _ 14 Hb Hbq eq_refl).
  done.
Qed.

(** C6, amended: for any SVG text in which the first occurrence of
    [width=] with its opening quote is followed by 120 and a quote, the
    first occurrence of [height=] with its quote by 40 and a quote, and the
    first occurrence of [wrs:baseline=] with its quote by 30 and a quote,
    the extraction yields the strings 120, 40 and 30, and the sizing (SVG
    format, [saveMode] other than base64) writes 120 and 40 as width and
    height and [-10px] as the vertical-align style. *)
Theorem svg_sizing_first_attributes (cfg : configuration) (img : image)
    (s : jsstring) :
  first_attribute (lit "width=") (lit "120") s ->
  first_attribute (lit "height=") (lit "40") s ->
  first_attribute (lit "wrs:baseline=") (lit "30") s ->
  imageFormat cfg = lit "svg" -> saveMode cfg <> lit "base64" ->
  getMetricsFromSvgString s
  = Some (<["cb" := String (lit "30")]> (<["ch" := String (lit "40")]>
           (<["cw" := String (lit "120")]> ∅)))
  /\ setImgSize cfg img s true
     = Return {| src := src img;
                 attr_width := Some (String (lit "120"));
                 attr_height := Some (String (lit "40"));
                 style_verticalAlign := Some (lit "-10px");
                 style_maxWidth := style_maxWidth img |}.
Proof.
  intros Hw Hh Hb Hf Hm.
  assert (Hm' := svg_metrics_first s _ _ _
                   Hw (not_elem_of_forallb dquote (lit "120") eq_refl)
                   Hh (not_elem_of_forallb dquote (lit "40") eq_refl)
                   Hb (not_elem_of_forallb dquote (lit "30") eq_refl)).
  split; [done|].
  unfold setImgSize, responseMetrics.
  rewrite (bool_decide_eq_true_2 _ Hf), (bool_decide_eq_false_2 _ Hm), Hm'.
  simpl outcome_bind. by vm_compute.
Qed.

(** ** The variables after the loop *)

Lemma absorb_dpi_pHYs st c :
  has_tag pHYs c ->
  dpi (absorb st c) = Number (Math_round (div (of_Z (field (body c) 0)) n39_37)).
Proof. unfold has_tag, absorb. by intros ->. Qed.

Lemma absorb_dpi_other st c : ~ has_tag pHYs c -> dpi (absorb st c) = dpi st.
Proof.
  unfold has_tag, absorb. intros H.
  destruct (Z.eqb_spec (word_value (tag c)) pHYs); [done|].
  by repeat case_match.
Qed.

Lemma foldl_absorb_dpi_other cs : forall st,
  Forall (fun c => ~ has_tag pHYs c) cs -> dpi (foldl absorb st cs) = dpi st.
Proof.
  induction cs as [|c cs IH]; intros st Hcs; [done|].
  inversion Hcs; subst. simpl. rewrite IH by done. by apply absorb_dpi_other.
Qed.

(** The resolution kept is that of the last [pHYs] chunk. *)
Lemma foldl_absorb_dpi_last pre c post st :
  has_tag pHYs c -> Forall (fun c => ~ has_tag pHYs c) post ->
  dpi (foldl absorb st (pre ++ c :: post))
  = Number (Math_round (div (of_Z (field (body c) 0)) n39_37)).
Proof.
  intros Hc Hpost. rewrite foldl_app. simpl.
  rewrite foldl_absorb_dpi_other by done. by apply absorb_dpi_pHYs.
Qed.


Lemma absorb_width_number st c :
  is_number (width st) \/ has_tag IHDR c -> is_number (width (absorb st c)).
Proof.
  unfold has_tag, absorb, is_number. intros [H| ->]; [|simpl; eauto].
  repeat case_match; simpl; eauto.
Qed.

Lemma foldl_absorb_width_number cs : forall st,
  is_number (width st) \/ Exists (has_tag IHDR) cs ->
  is_number (width (foldl absorb st cs)).
Proof.
  induction cs as [|c cs IH]; intros st H; simpl.
  - destruct H as [H|H]; [done|inversion H].
  - apply IH. destruct H as [H|H].
    + left. apply absorb_width_number. by left.
    + inversion H; subst; [|by right].
      left. apply absorb_width_number. by right.
Qed.

(** The array returned once [width] holds a number. *)
Lemma result_number st :
  is_number (width st) ->
  exists ar, result st = Some ar
    /\ ar !! "cw" = Some (width st)
    /\ ar !! "ch" = Some (height st)
    /\ ar !! "dpi" = Some (dpi st).
Proof.
  intros [x Hx]. unfold result. rewrite Hx. simpl.
  destruct (ToBoolean (baseline st)); eexists; (split; [done|]);
    by simplify_map_eq.
Qed.

(** C3, amended: for a payload made of the signature and of walked chunks
    (a header chunk among them) and a tail of fewer than four bytes, the
    [dpi] returned is [Math.round(v / 39.37)] for the X field [v] of the
    last [pHYs] chunk; and whenever the [dpi] and [cw] entries are truthy,
    the width and height written are the raw values times 96 divided by the
    dpi, and the vertical offset is computed from the rescaled height and
    baseline. *)
Theorem dpi_of_last_pHYs_and_rescaling
    (pre post : list chunk) (c : chunk) (tail : list byte) (v : Z)
    (ar : metrics) (img : image) :
  Forall walked (pre ++ c :: post) ->
  Exists (has_tag IHDR) (pre ++ c :: post) ->
  has_tag pHYs c -> field (body c) 0 = v ->
  Forall (fun c => ~ has_tag pHYs c) post ->
  (length tail < 4)%nat ->
  ToBoolean (entry ar "cw") = true ->
  ToBoolean (entry ar "dpi") = true ->
  (exists found,
     getMetricsFromBytes
       (signature ++ concat (map encode (pre ++ c :: post)) ++ tail)
     = Return (Some found)
     /\ found !! "dpi" = Some (Number (Math_round (div (of_Z v) n39_37))))
  /\ (let width := divide (times (entry ar "cw") (Number (of_Z 96)))
                          (entry ar "dpi") in
      let height := divide (times (entry ar "ch") (Number (of_Z 96)))
                           (entry ar "dpi") in
      let baseline := divide (times (entry ar "cb") (Number (of_Z 96)))
                             (entry ar "dpi") in
      applyMetrics (Some ar) img
      = Return {| src := src img;
                  attr_width := Some width;
                  attr_height := Some height;
                  style_verticalAlign :=
                    Some ((lit "-"
                           ++ NumberToString (sub (ToNumber height)
                                                  (ToNumber baseline)))
                          ++ lit "px");
                  style_maxWidth := style_maxWidth img |}).
Proof.
  intros Hw Hi Hc Hv Hpost Ht Hcw Hdpi. split.
  - rewrite getMetricsFromBytes_walked by done.
    destruct (result_number (foldl absorb (start []) (pre ++ c :: post)))
      as (found & Hr & _ & _ & Hd).
    { apply foldl_absorb_width_number. by right. }
    exists found. split; [by rewrite Hr|].
    by rewrite Hd, foldl_absorb_dpi_last, Hv.
  - rewrite applyMetrics_writes by done. unfold scaled. by rewrite Hdpi.
Qed.

(** ** The base64 decoder and its cap *)

Lemma group_length a b c d g :
  Util.group a b (Some c) (Some d) = Return g -> length g = 3%nat.
Proof.
  unfold Util.group, Util.sextet. simpl.
  destruct (Util.decode64 a), (Util.decode64 b), (Util.decode64 c),
    (Util.decode64 d); simpl; try done.
  by intros [= <-].
Qed.

Lemma decode_more a b c d e rest room :
  room <> Some 0%nat ->
  Util.decode (a :: b :: c :: d :: e :: rest) room
  = (g <- Util.group a b (Some c) (Some d) ;;
     r <- Util.decode (e :: rest) ((fun n => n - 3)%nat <$> room) ;;
     Return (g ++ r))%outcome.
Proof. by destruct room as [[|n]|]. Qed.

Lemma decode_cap_aux k : forall s n raw,
  (length s <= k)%nat ->
  Util.decode s None = Return raw ->
  exists r, Util.decode s (Some n) = Return r /\ take n r = take n raw.
Proof.
  induction k as [|k IH]; intros s n raw Hk Hd.
  { destruct s; [|simpl in Hk; lia]. simpl in Hd. injection Hd as <-.
    exists []. by destruct n. }
  destruct n as [|n].
  { exists []. split; [by destruct s|]. done. }
  destruct s as [|a [|b [|c [|d [|e rest]]]]];
    try (exists raw; split; [exact Hd|reflexivity]);
    try (simpl in Hd; discriminate Hd).
  rewrite decode_more in Hd |- * by done.
  destruct (Util.group a b (Some c) (Some d)) as [g| |] eqn:Hg; try done.
  cbn [outcome_bind fmap option_fmap option_map] in Hd |- *.
  destruct (Util.decode (e :: rest) None) as [r0| |] eqn:Hr; try done.
  cbn [outcome_bind] in Hd. injection Hd as <-.
  destruct (IH (e :: rest) (S n - 3)%nat r0) as (r' & Hr' & Ht); [simpl in *; lia|done|].
  rewrite Hr'. cbn [outcome_bind]. eexists. split; [done|].
  by rewrite !take_app, (group_length _ _ _ _ _ Hg), Ht.
Qed.

(** Decoding with a cap gives the first bytes of the whole decoding. *)
Lemma b64ToByteArray_cap s n raw :
  Util.b64ToByteArray s None = Return raw ->
  Util.b64ToByteArray s (Some n) = Return (take (Z.to_nat n) raw).
Proof.
  unfold Util.b64ToByteArray. intros Hd.
  destruct (decode_cap_aux _ s (Z.to_nat n) raw (Nat.le_refl _) Hd) as (r & -> & Ht).
  simpl. by rewrite Ht.
Qed.


Lemma png_uri_payload payload :
  let s := png_prefix ++ payload in
  indexOf s (lit "data:image") 0 = 0
  /\ substr s (indexOf s (lit "base64,") 0 + 7) (jslength s) = payload.
Proof.
  split.
  - apply (indexOf_first _ _ 0). apply first_at_app; [vm_compute; lia|].
    by apply first_at_index_from.
  - apply (after_base64 _ (lit "data:image/png;")).
    + by rewrite app_assoc.
    + apply first_at_app; [vm_compute; lia|]. by apply first_at_index_from.
Qed.

(** C7, amended: for an image whose [src] is [data:image/png;base64,]
    followed by a payload, and a raster format, [fixAfterResize] gives the
    outcome of parsing and sizing, on the image with its style, width and
    height cleared, the bytes decoded from the payload with the cap of 88;
    when the payload decodes to [raw], these are the first 88 bytes of
    [raw]. *)
Theorem resize_reparses_first_88_bytes
    (decodeURIComponent : jsstring -> outcome jsstring)
    (cfg : configuration) (img : image) (payload : jsstring) :
  src img = png_prefix ++ payload ->
  imageFormat cfg <> lit "svg" ->
  fixAfterResize decodeURIComponent cfg img
  = (bytes <- Util.b64ToByteArray payload (Some 88) ;;
     ar <- getMetricsFromBytes bytes ;;
     applyMetrics ar (cleared img))%outcome
  /\ forall raw,
       Util.b64ToByteArray payload None = Return raw ->
       fixAfterResize decodeURIComponent cfg img
       = (ar <- getMetricsFromBytes (take 88 raw) ;;
          applyMetrics ar (cleared img))%outcome.
Proof.
  intros Hs Hf.
  assert (fixAfterResize decodeURIComponent cfg img
          = (bytes <- Util.b64ToByteArray payload (Some 88) ;;
             ar <- getMetricsFromBytes bytes ;;
             applyMetrics ar (cleared img))%outcome) as H.
  { unfold fixAfterResize, setImgSize, responseMetrics. cbn [src].
    destruct (png_uri_payload payload) as [Hi Hp].
    rewrite Hs, Hi, Hp, (bool_decide_eq_false_2 _ Hf). cbn [negb Z.eqb].
    fold (cleared img). unfold cleared at 1. rewrite Hs.
    by destruct (Util.b64ToByteArray payload (Some 88)). }
  split; [done|].
  intros raw Hr. by rewrite H, (b64ToByteArray_cap _ _ _ Hr).
Qed.

(** ** The loop on chunks of other types *)

Lemma byte_value_range b : 0 <= Util.byte_value b < 256.
Proof.
  unfold Util.byte_value. pose proof (Byte.to_N_bounded b). lia.
Qed.

(** A 32-bit field is an unsigned 32-bit integer. *)
Lemma uint32_range a b c d : 0 <= Util.uint32 a b c d < 2 ^ 32.
Proof.
  unfold Util.uint32.
  pose proof (byte_value_range a). pose proof (byte_value_range b).
  pose proof (byte_value_range c). pose proof (byte_value_range d). lia.
Qed.

(** A chunk of another type: the four bytes after the type are taken for
    the trailer, whatever the length says. *)
Lemma read_chunk_unknown st l t x0 x1 x2 x3 rest :
  word_value t <> IHDR -> word_value t <> baSE -> word_value t <> pHYs ->
  bytes st = word_bytes l ++ word_bytes t ++ x0 :: x1 :: x2 :: x3 :: rest ->
  read_chunk st = Return (tt, with_bytes rest st).
Proof.
  destruct st as [bs w h b d], l as [l0 l1 l2 l3], t as [t0 t1 t2 t3].
  unfold word_value, word_bytes; simpl. intros H1 H2 H3 ->.
  unfold read_chunk, bind, call, Util.readInt32; simpl.
  fold IHDR baSE pHYs.
  by rewrite (proj2 (Z.eqb_neq _ _) H1), (proj2 (Z.eqb_neq _ _) H2),
    (proj2 (Z.eqb_neq _ _) H3).
Qed.

Lemma absorb_width_other st c :
  ~ has_tag IHDR c ->
  width (absorb st c) = width st /\ height (absorb st c) = height st.
Proof.
  unfold has_tag, absorb. intros H.
  destruct (Z.eqb_spec (word_value (tag c)) IHDR); [done|].
  by repeat case_match.
Qed.

Lemma foldl_absorb_width_other cs : forall st,
  Forall (fun c => ~ has_tag IHDR c) cs ->
  width (foldl absorb st cs) = width st
  /\ height (foldl absorb st cs) = height st.
Proof.
  induction cs as [|c cs IH]; intros st Hcs; [done|].
  inversion Hcs; subst. simpl.
  destruct (IH (absorb st c)) as [-> ->]; [done|].
  by apply absorb_width_other.
Qed.

(** When the header chunk comes first and every chunk is walked, the
    dimensions returned are the two fields of the header. *)
Lemma ihdr_dimensions_walked c cs tail :
  has_tag IHDR c -> Forall walked (c :: cs) ->
  Forall (fun c => ~ has_tag IHDR c) cs -> (length tail < 4)%nat ->
  exists ar,
    getMetricsFromBytes (signature ++ concat (map encode (c :: cs)) ++ tail)
    = Return (Some ar)
    /\ ar !! "cw" = Some (Number (of_Z (field (body c) 0)))
    /\ ar !! "ch" = Some (Number (of_Z (field (body c) 4))).
Proof.
  intros Hc Hw Hcs Ht. rewrite getMetricsFromBytes_walked by done.
  destruct (result_number (foldl absorb (start []) (c :: cs)))
    as (ar & Hr & Hcw & Hch & _).
  { apply foldl_absorb_width_number. right. by left. }
  exists ar. split; [by rewrite Hr|].
  rewrite Hcw, Hch. simpl.
  destruct (foldl_absorb_width_other cs (absorb (start []) c) Hcs) as [-> ->].
  unfold has_tag in Hc. unfold absorb. by rewrite Hc.
Qed.

(** C1: the loop on a well-formed payload with a chromaticity chunk (32
    bytes of body) between the header and the baseline chunk. After the turn
    for the [cHRM] chunk the bytes left start at the fifth byte of its body,
    not at the baseline chunk, and the baseline is never found: the array
    returned has no [cb]. *)
Theorem unknown_chunk_body_not_skipped :
  png_cHRM = signature ++ concat (map encode [IHDR_100x50; cHRM; baSE_40; IEND])
  /\ Forall well_formed [IHDR_100x50; cHRM; baSE_40; IEND]
  /\ word_value (tag cHRM) <> IHDR
  /\ word_value (tag cHRM) <> baSE
  /\ word_value (tag cHRM) <> pHYs
  /\ read_chunk
       (with_bytes (concat (map encode [cHRM; baSE_40; IEND])) (start []))
     = Return (tt, with_bytes (drop 4 (body cHRM) ++ word_bytes (crc cHRM)
                               ++ concat (map encode [baSE_40; IEND]))
                              (start []))
  /\ drop 4 (body cHRM) ++ word_bytes (crc cHRM)
     ++ concat (map encode [baSE_40; IEND])
     <> concat (map encode [baSE_40; IEND])
  /\ getMetricsFromBytes png_cHRM
     = Return (Some (<["dpi" := Undefined]>
                      (<["ch" := Number (of_Z 50)]>
                        (<["cw" := Number (of_Z 100)]> ∅)))).
Proof.
  split; [done|]. split; [by repeat constructor|].
  repeat (split; [by vm_compute|]). by vm_compute.
Qed.

(** C2: the loop on a well-formed payload whose header chunk says 100 by
    50 and whose private chunk carries the bytes of a 7 by 9 header in its
    body: the dimensions returned are 7 and 9. *)
Theorem header_overwritten_from_chunk_body :
  png_prVt = signature ++ concat (map encode [IHDR_100x50; prVt; IEND])
  /\ Forall well_formed [IHDR_100x50; prVt; IEND]
  /\ has_tag IHDR IHDR_100x50
  /\ field (body IHDR_100x50) 0 = 100 /\ field (body IHDR_100x50) 4 = 50
  /\ getMetricsFromBytes png_prVt
     = Return (Some (<["dpi" := Undefined]>
                      (<["ch" := Number (of_Z 9)]>
                        (<["cw" := Number (of_Z 7)]> ∅)))).
Proof.
  split; [done|]. split; [by repeat constructor|].
  repeat (split; [by vm_compute|]). by vm_compute.
Qed.

(** C4: the sizing of an SVG text without a [width] attribute: the width
    extracted is the text [eight=], and width, height and vertical-align are
    written. *)
Theorem svg_without_width_is_sized :
  index_from (lit "width=" ++ [dquote]) svg_no_width 0 = None
  /\ getMetricsFromSvgString svg_no_width
     = Some (<["cb" := String (lit "40")]> (<["ch" := String (lit "40")]>
              (<["cw" := String (lit "eight=")]> ∅)))
  /\ setImgSize svg_plain (blank []) svg_no_width true
     = Return {| src := [];
                 attr_width := Some (String (lit "eight="));
                 attr_height := Some (String (lit "40"));
                 style_verticalAlign := Some (lit "-0px");
                 style_maxWidth := None |}.
Proof. repeat (split; [by vm_compute|]). by vm_compute. Qed.

(** No header chunk: the parser returns [undefined], reading its [cw]
    throws, and nothing is written. *)
Lemma png_without_width_not_sized cfg img uri :
  imageFormat cfg <> lit "svg" ->
  (bytes <- Util.b64ToByteArray
              (substr (src img) (indexOf (src img) (lit "base64,") 0 + 7)
                      (jslength (src img))) (Some 88) ;;
   getMetricsFromBytes bytes)%outcome = Return None ->
  setImgSize cfg img uri true = Throw TypeError.
Proof.
  intros Hf Hr. unfold setImgSize, responseMetrics.
  by rewrite (bool_decide_eq_false_2 _ Hf), Hr.
Qed.

(** No [cw] key in the URL: the image is returned as it was. *)
Lemma url_without_width_not_sized cfg img uri :
  Util.urlToAssArray uri !! "cw" = None ->
  setImgSize cfg img uri false = Return img.
Proof.
  intros H. unfold setImgSize, responseMetrics, applyMetrics, entry; simpl.
  by rewrite H.
Qed.

(** ** Sample runs *)

(** C3, counterexample: a payload with two [pHYs] chunks, 3780 then 7559
    pixels per metre; the [dpi] returned is 192, not the 96 of the first.
    And a payload with the first of them and no header chunk: nothing is
    returned. *)
Lemma dpi_of_earlier_pHYs_dropped :
  png_two_pHYs
  = signature ++ concat (map encode [IHDR_100x50; pHYs_3780; pHYs_7559])
  /\ has_tag pHYs pHYs_3780 /\ field (body pHYs_3780) 0 = 3780
  /\ Math_round (div (of_Z 3780) n39_37) = of_Z 96
  /\ (exists found,
        getMetricsFromBytes png_two_pHYs = Return (Some found)
        /\ found !! "dpi" = Some (Number (of_Z 192)))
  /\ of_Z 192 <> of_Z 96
  /\ png_pHYs_only = signature ++ concat (map encode [pHYs_3780])
  /\ getMetricsFromBytes png_pHYs_only = Return None.
Proof.
  split; [done|]. do 3 (split; [by vm_compute|]).
  split; [eexists; split; by vm_compute|].
  split; [by vm_compute|]. split; [done|]. by vm_compute.
Qed.

(** C3, witness: header, baseline and [pHYs] chunk at 192 dpi. *)
Lemma dpi_of_last_pHYs_and_rescaling_witness :
  let ar : metrics :=
    <["cb" := Number (of_Z 40)]> (<["dpi" := Number (of_Z 192)]>
      (<["ch" := Number (of_Z 50)]> (<["cw" := Number (of_Z 100)]> ∅))) in
  (exists found,
     getMetricsFromBytes
       (signature ++ concat (map encode ([IHDR_100x50; baSE_40]
                                         ++ pHYs_7559 :: [])) ++ [])
     = Return (Some found)
     /\ found !! "dpi" = Some (Number (Math_round (div (of_Z 7559) n39_37))))
  /\ applyMetrics (Some ar) (blank [])
     = Return {| src := [];
                 attr_width := Some (Number (of_Z 50));
                 attr_height := Some (Number (of_Z 25));
                 style_verticalAlign := Some (lit "-5px");
                 style_maxWidth := None |}.
Proof.
  intros ar.
  destruct (dpi_of_last_pHYs_and_rescaling [IHDR_100x50; baSE_40] []
              pHYs_7559 [] 7559 ar (blank [])) as [H1 H2].
  - repeat constructor; by vm_compute.
  - apply Exists_cons_hd. by vm_compute.
  - by vm_compute.
  - by vm_compute.
  - constructor.
  - simpl. lia.
  - by vm_compute.
  - by vm_compute.
  - split; [exact H1|]. rewrite H2. by vm_compute.
Defined.

(** C5, amended: for every metrics array with a truthy width, the width,
    the height and the vertical-align style are written together (each
    entry rescaled when [dpi] is truthy); the style is a minus sign,
    the text of the number [height - baseline] and [px], the negative pixel
    offset [-(height - baseline)] when the baseline is present. *)
Theorem vertical_align_written_with_size (ar : metrics) (img : image) :
  ToBoolean (entry ar "cw") = true ->
  exists sized,
    applyMetrics (Some ar) img = Return sized
    /\ attr_width sized = Some (scaled ar "cw")
    /\ attr_height sized = Some (scaled ar "ch")
    /\ style_verticalAlign sized
       = Some ((lit "-"
                ++ NumberToString (sub (ToNumber (scaled ar "ch"))
                                       (ToNumber (scaled ar "cb"))))
               ++ lit "px").
Proof.
  intros H. rewrite applyMetrics_writes by done. by eexists.
Qed.

(** C5, witness: width 100, height 50, baseline 40. *)
Lemma vertical_align_written_with_size_witness :
  let ar : metrics :=
    <["cb" := Number (of_Z 40)]> (<["dpi" := Undefined]>
      (<["ch" := Number (of_Z 50)]> (<["cw" := Number (of_Z 100)]> ∅))) in
  exists sized,
    applyMetrics (Some ar) (blank []) = Return sized
    /\ attr_width sized = Some (Number (of_Z 100))
    /\ attr_height sized = Some (Number (of_Z 50))
    /\ style_verticalAlign sized = Some (lit "-10px").
Proof.
  intros ar.
  destruct (vertical_align_written_with_size ar (blank []))
    as (sized & H1 & H2 & H3 & H4); [by vm_compute|].
  exists sized. split; [exact H1|].
  rewrite H2, H3, H4. by vm_compute.
Defined.

(** C5, counterexample: a payload with a header chunk and no baseline
    chunk; the array has [cw] and [ch] and no [cb], and the vertical-align
    style is written all the same, as [-NaNpx]. *)
Lemma vertical_align_written_without_baseline :
  exists ar sized,
    getMetricsFromBytes png_IHDR_only = Return (Some ar)
    /\ ar !! "cw" = Some (Number (of_Z 100))
    /\ ar !! "ch" = Some (Number (of_Z 50))
    /\ ar !! "cb" = None
    /\ applyMetrics (Some ar) (blank []) = Return sized
    /\ style_verticalAlign (blank []) = None
    /\ style_verticalAlign sized = Some (lit "-NaNpx").
Proof.
  do 2 eexists. split; [by vm_compute|].
  do 3 (split; [by vm_compute|]). split; [by vm_compute|]. by vm_compute.
Qed.

(** C6, witness: an [svg] tag with the attributes width 120, height 40
    and wrs:baseline 30, in this order. *)
Lemma svg_sizing_first_attributes_witness :
  getMetricsFromSvgString svg_sample
  = Some (<["cb" := String (lit "30")]> (<["ch" := String (lit "40")]>
           (<["cw" := String (lit "120")]> ∅)))
  /\ setImgSize svg_plain (blank []) svg_sample true
     = Return {| src := [];
                 attr_width := Some (String (lit "120"));
                 attr_height := Some (String (lit "40"));
                 style_verticalAlign := Some (lit "-10px");
                 style_maxWidth := None |}.
Proof.
  apply (svg_sizing_first_attributes svg_plain (blank []) svg_sample).
  - exists (lit "<svg "), (lit " height=" ++ [dquote] ++ lit "40" ++ [dquote]
      ++ lit " wrs:baseline=" ++ [dquote] ++ lit "30" ++ [dquote] ++ lit ">").
    split; [by vm_compute|]. apply first_at_index_from. by vm_compute.
  - exists (lit "<svg width=" ++ [dquote] ++ lit "120" ++ [dquote] ++ lit " "),
      (lit " wrs:baseline=" ++ [dquote] ++ lit "30" ++ [dquote] ++ lit ">").
    split; [by vm_compute|]. apply first_at_index_from. by vm_compute.
  - exists (lit "<svg width=" ++ [dquote] ++ lit "120" ++ [dquote]
            ++ lit " height=" ++ [dquote] ++ lit "40" ++ [dquote] ++ lit " "),
      (lit ">").
    split; [by vm_compute|]. apply first_at_index_from. by vm_compute.
  - reflexivity.
  - by vm_compute.
Defined.

(** C6, counterexample: a text that contains the three substrings after a
    [stroke-width] attribute of value 2; the width written is 2. *)
Lemma svg_sizing_takes_first_match :
  (exists i, occurs_at (lit "width=" ++ [dquote] ++ lit "120" ++ [dquote])
                       svg_stroke i)
  /\ (exists i, occurs_at (lit "height=" ++ [dquote] ++ lit "40" ++ [dquote])
                          svg_stroke i)
  /\ (exists i, occurs_at (lit "wrs:baseline=" ++ [dquote] ++ lit "30"
                           ++ [dquote]) svg_stroke i)
  /\ setImgSize svg_plain (blank []) svg_stroke true
     = Return {| src := [];
                 attr_width := Some (String (lit "2"));
                 attr_height := Some (String (lit "40"));
                 style_verticalAlign := Some (lit "-10px");
                 style_maxWidth := None |}
  /\ String (lit "2") <> String (lit "120").
Proof.
  split; [by exists 22%nat|]. split; [by exists 34%nat|].
  split; [by exists 46%nat|]. split; by vm_compute.
Qed.

(** C7, witness: a data URI of 106 bytes of PNG. *)
Lemma resize_reparses_first_88_bytes_witness :
  let img := blank (png_prefix ++ late_pHYs_base64) in
  fixAfterResize (fun s => Return s) png_base64 img
  = (bytes <- Util.b64ToByteArray late_pHYs_base64 (Some 88) ;;
     ar <- getMetricsFromBytes bytes ;;
     applyMetrics ar (cleared img))%outcome
  /\ forall raw,
       Util.b64ToByteArray late_pHYs_base64 None = Return raw ->
       fixAfterResize (fun s => Return s) png_base64 img
       = (ar <- getMetricsFromBytes (take 88 raw) ;;
          applyMetrics ar (cleared img))%outcome.
Proof.
  intros img.
  apply (resize_reparses_first_88_bytes (fun s => Return s) png_base64 img
           late_pHYs_base64).
  - reflexivity.
  - by vm_compute.
Defined.

(** C7, counterexample: the payload decodes to 106 bytes with the [pHYs]
    chunk (192 dpi) from byte 85 on; the resize path, which decodes 88
    bytes, writes 100 by 50 with [-10px], while parsing and sizing the 106
    bytes gives 50 by 25 with [-5px]. *)
Lemma resize_misses_chunks_past_88_bytes :
  let img := blank (png_prefix ++ late_pHYs_base64) in
  Util.b64ToByteArray late_pHYs_base64 None = Return png_late_pHYs
  /\ (length png_late_pHYs = 106)%nat
  /\ fixAfterResize (fun s => Return s) png_base64 img
     = Return {| src := src img;
                 attr_width := Some (Number (of_Z 100));
                 attr_height := Some (Number (of_Z 50));
                 style_verticalAlign := Some (lit "-10px");
                 style_maxWidth := Some (lit "none") |}
  /\ (ar <- getMetricsFromBytes png_late_pHYs ;;
      applyMetrics ar (cleared img))%outcome
     = Return {| src := src img;
                 attr_width := Some (Number (of_Z 50));
                 attr_height := Some (Number (of_Z 25));
                 style_verticalAlign := Some (lit "-5px");
                 style_maxWidth := Some (lit "none") |}
  /\ Number (of_Z 100) <> Number (of_Z 50).
Proof.
  intros img. do 4 (split; [by vm_compute|]). by vm_compute.
Qed.

(** C10, witness: two different [uri] arguments on a PNG data URI. *)
Lemma setImgSize_ignores_uri_witness :
  let img := blank (png_prefix ++ late_pHYs_base64) in
  setImgSize png_base64 img (lit "first") true
  = setImgSize png_base64 img (lit "second") true
  /\ forall pre payload,
       src img = pre ++ lit "base64," ++ payload ->
       first_at (lit "base64,") (src img) (length pre) ->
       substr (src img) (indexOf (src img) (lit "base64,") 0 + 7)
              (jslength (src img)) = payload.
Proof.
  intros img. apply setImgSize_ignores_uri. left. by vm_compute.
Defined.

(** * Further properties *)

(** ** Integers as numbers *)

Lemma iter_xO_mul p k : Zpos (Pos.iter xO p k) = Zpos p * 2 ^ Zpos k.
Proof.
  induction k as [|k IH] using Pos.peano_ind.
  - simpl. lia.
  - rewrite Pos.iter_succ, Pos2Z.inj_xO, IH, Pos2Z.inj_succ, Z.pow_succ_r by lia.
    lia.
Qed.

Lemma digits2_iter_xO p k :
  Zpos (digits2_pos (Pos.iter xO p k)) = Zpos (digits2_pos p) + Zpos k.
Proof.
  induction k as [|k IH] using Pos.peano_ind.
  - simpl. lia.
  - rewrite Pos.iter_succ. simpl digits2_pos. rewrite Pos2Z.inj_succ, IH. lia.
Qed.

(** A mantissa of 53 bits is not rounded. *)
Lemma binary_round_aux_exact s m e :
  Zpos (digits2_pos m) = 53 -> -1074 <= e <= 971 ->
  binary_round_aux prec emax s (Zpos m) e loc_Exact = S754_finite s m e.
Proof.
  intros Hm He.
  assert (H0 : fexp prec emax (Zdigits2 (Zpos m) + e) - e = 0).
  { unfold fexp, emin, prec, emax. cbn [Zdigits2]. lia. }
  unfold binary_round_aux, shr_fexp. rewrite H0.
  cbn [shr shr_record_of_loc loc_of_shr_record shr_m round_nearest_even].
  rewrite H0.
  cbn [shr shr_record_of_loc loc_of_shr_record shr_m round_nearest_even].
  unfold prec, emax. destruct (Z.leb_spec e (1024 - 53)); [done|lia].
Qed.

(** An integer of at most 53 bits is its own binary64 value: the mantissa
    is the integer shifted to 53 bits. *)
Lemma binary_round_integer s p :
  Zpos (digits2_pos p) <= 53 ->
  exists m e,
    binary_round prec emax s p 0 = S754_finite s m e
    /\ -52 <= e <= 0 /\ Zpos m = Zpos p * 2 ^ (- e).
Proof.
  intros Hd. unfold binary_round, shl_align.
  assert (Hf : fexp prec emax (Zpos (digits2_pos p) + 0)
               = Zpos (digits2_pos p) - 53).
  { unfold fexp, emin, prec, emax. lia. }
  rewrite Hf.
  destruct (Zpos (digits2_pos p) - 53 - 0) as [|q|q] eqn:Hq; try lia.
  - exists p, 0. rewrite binary_round_aux_exact by lia.
    split; [done|]. simpl. lia.
  - exists (Pos.iter xO p q), (Zpos (digits2_pos p) - 53).
    rewrite binary_round_aux_exact.
    + split; [done|]. split; [lia|]. rewrite iter_xO_mul. f_equal. f_equal. lia.
    + rewrite digits2_iter_xO. lia.
    + lia.
Qed.

Lemma digits2_size p : digits2_pos p = Pos.size p.
Proof. induction p; simpl; congruence. Qed.

Lemma digits2_bound p n : 0 <= n -> Zpos p < 2 ^ n -> Zpos (digits2_pos p) <= n.
Proof.
  intros Hn Hp. rewrite digits2_size.
  pose proof (Pos.size_le p) as Hs.
  apply Pos2Z.pos_le_pos in Hs. rewrite Pos2Z.inj_pow, Pos2Z.inj_xO in Hs.
  destruct (Z.le_gt_cases (Zpos (Pos.size p)) n) as [|Hgt]; [done|].
  assert (Hp2 : 2 ^ (Z.succ n) <= 2 ^ Zpos (Pos.size p)).
  { apply Z.pow_le_mono_r; lia. }
  rewrite Z.pow_succ_r in Hp2 by lia. rewrite Z.mul_1_r in Hs. lia.
Qed.

Lemma integer_of_finite s m e p :
  -52 <= e <= 0 -> Zpos m = Zpos p * 2 ^ (- e) ->
  integer_of (S754_finite s m e) = Some (if s then Zneg p else Zpos p).
Proof.
  intros He Hm. unfold integer_of. rewrite Hm.
  destruct (Z.leb_spec 0 e).
  - replace e with 0 by lia. cbn [Z.opp]. rewrite !Z.pow_0_r.
    destruct s; f_equal; lia.
  - rewrite Z.mod_mul, Z.div_mul, Z.eqb_refl by lia.
    destruct s; f_equal; lia.
Qed.

(** Integers below 2^53 in absolute value are numbers exactly. *)
Lemma integer_of_of_Z z : Z.abs z < 2 ^ 53 -> integer_of (of_Z z) = Some z.
Proof.
  intros Hz. unfold of_Z, binary_normalize.
  destruct z as [|p|p]; [done| |].
  - destruct (binary_round_integer false p) as (m & e & -> & He & Hm);
      [apply digits2_bound; simpl in Hz; lia|].
    by apply (integer_of_finite false).
  - destruct (binary_round_integer true p) as (m & e & -> & He & Hm);
      [apply digits2_bound; simpl in Hz; lia|].
    by apply (integer_of_finite true).
Qed.

(** Such an integer is truthy unless it is zero. *)
Lemma of_Z_truthy z :
  Z.abs z < 2 ^ 53 -> ToBoolean (Number (of_Z z)) = negb (z =? 0).
Proof.
  intros Hz. unfold of_Z, binary_normalize.
  destruct z as [|p|p]; [done| |].
  - by destruct (binary_round_integer false p) as (m & e & -> & _);
      [apply digits2_bound; simpl in Hz; lia|].
  - by destruct (binary_round_integer true p) as (m & e & -> & _);
      [apply digits2_bound; simpl in Hz; lia|].
Qed.

(** ** The array of a payload of walked chunks *)

Lemma field_range bs i : 0 <= field bs i < 2 ^ 32.
Proof.
  unfold field. destruct (drop i bs) as [|a [|b [|c [|d r]]]]; try lia.
  apply uint32_range.
Qed.

Lemma last_tagged_snoc typ cs c :
  last_tagged typ (cs ++ [c])
  = if decide (has_tag typ c) then Some c else last_tagged typ cs.
Proof.
  unfold last_tagged. rewrite filter_app, filter_cons, filter_nil.
  case_decide; [by rewrite last_snoc|by rewrite app_nil_r].
Qed.

(** The variables after the loop come from the last chunk of each type. *)
Lemma foldl_absorb_last cs : forall st,
  let st' := foldl absorb st cs in
  width st' = from_option (fun c => Number (of_Z (field (body c) 0)))
                          (width st) (last_tagged IHDR cs)
  /\ height st' = from_option (fun c => Number (of_Z (field (body c) 4)))
                              (height st) (last_tagged IHDR cs)
  /\ baseline st' = from_option (fun c => Number (of_Z (field (body c) 0)))
                                (baseline st) (last_tagged baSE cs)
  /\ dpi st' = from_option
                 (fun c => Number (Math_round (div (of_Z (field (body c) 0))
                                                   n39_37)))
                 (dpi st) (last_tagged pHYs cs).
Proof.
  induction cs as [|c cs IH] using rev_ind; intros st; [done|].
  cbn zeta. rewrite foldl_app. cbn [foldl].
  destruct (IH st) as (Hw & Hh & Hb & Hd).
  rewrite !last_tagged_snoc. unfold absorb, has_tag.
  destruct (Z.eqb_spec (word_value (tag c)) IHDR) as [E1|E1].
  { rewrite !decide_True by done. rewrite !decide_False by (rewrite E1; done).
    done. }
  destruct (Z.eqb_spec (word_value (tag c)) baSE) as [E2|E2].
  { rewrite (decide_True _ _ E2). rewrite !decide_False by (rewrite ?E2; done).
    done. }
  destruct (Z.eqb_spec (word_value (tag c)) pHYs) as [E3|E3].
  { rewrite (decide_True _ _ E3). rewrite !decide_False by done. done. }
  by rewrite !decide_False by done.
Qed.

Lemma result_metrics_of_chunks cs :
  result (foldl absorb (start []) cs) = metrics_of_chunks cs.
Proof.
  destruct (foldl_absorb_last cs (start [])) as (Hw & Hh & Hb & Hd).
  unfold result, metrics_of_chunks. rewrite Hw, Hh, Hb, Hd.
  cbn [start width height baseline dpi].
  destruct (last_tagged IHDR cs) as [hd|]; [|done]. cbn [from_option].
  cbn [typeof loosely_equal negb].
  replace (loosely_equal (String (lit "number")) (String (lit "undefined")))
    with false by done.
  cbn [negb]. f_equal.
  destruct (last_tagged baSE cs) as [c|]; [|done]. cbn [from_option].
  rewrite of_Z_truthy by (pose proof (field_range (body c) 0); lia).
  by destruct (field (body c) 0 =? 0).
Qed.

(** X1: for a payload made of the signature, chunks that the loop reads to
    their end and fewer than 4 bytes after them, the PNG parser returns the
    array read off the chunks: nothing without a header chunk; otherwise
    the width and height of the last header chunk, the resolution of the
    last [pHYs] chunk ([undefined] without one) and the baseline of the last
    [baSE] chunk, left out when there is none or when it is zero. *)
Theorem walked_payload_metrics (cs : list chunk) (tail : list byte) :
  Forall walked cs -> (length tail < 4)%nat ->
  getMetricsFromBytes (signature ++ concat (map encode cs) ++ tail)
  = Return (metrics_of_chunks cs).
Proof.
  intros Hw Ht. by rewrite getMetricsFromBytes_walked, result_metrics_of_chunks.
Qed.

(** X1, witness: header, baseline and resolution chunks. *)
Lemma walked_payload_metrics_witness :
  getMetricsFromBytes
    (signature ++ concat (map encode [IHDR_100x50; baSE_40; pHYs_3780]) ++ [])
  = Return (metrics_of_chunks [IHDR_100x50; baSE_40; pHYs_3780]).
Proof.
  apply walked_payload_metrics.
  - repeat constructor; by vm_compute.
  - simpl. lia.
Defined.

Lemma last_tagged_Permutation typ cs cs' :
  cs ≡ₚ cs' -> (length (filter (has_tag typ) cs) <= 1)%nat ->
  last_tagged typ cs = last_tagged typ cs'.
Proof.
  intros Hp Hl. unfold last_tagged.
  assert (Hf : filter (has_tag typ) cs ≡ₚ filter (has_tag typ) cs')
    by (by rewrite Hp).
  destruct (filter (has_tag typ) cs) as [|c [|c' l]]; [| |simpl in Hl; lia].
  - by apply Permutation_nil_l in Hf as <-.
  - by apply Permutation_singleton_l in Hf as <-.
Qed.

(** X2: when a payload of walked chunks has at most one chunk of each of
    the types [IHDR], [baSE] and [pHYs], the order of its chunks does not
    matter: any rearrangement of them gives the same result. *)
Theorem chunk_order_irrelevant (cs cs' : list chunk) (tail tail' : list byte) :
  cs ≡ₚ cs' ->
  (forall typ, typ ∈ [IHDR; baSE; pHYs] ->
     (length (filter (has_tag typ) cs) <= 1)%nat) ->
  Forall walked cs -> (length tail < 4)%nat -> (length tail' < 4)%nat ->
  getMetricsFromBytes (signature ++ concat (map encode cs) ++ tail)
  = getMetricsFromBytes (signature ++ concat (map encode cs') ++ tail').
Proof.
  intros Hp Hu Hw Ht Ht'.
  assert (Hw' : Forall walked cs') by (by rewrite <- Hp).
  rewrite (getMetricsFromBytes_walked cs), (getMetricsFromBytes_walked cs'),
    !result_metrics_of_chunks by done.
  unfold metrics_of_chunks.
  rewrite <- (last_tagged_Permutation IHDR cs cs'),
          <- (last_tagged_Permutation baSE cs cs'),
          <- (last_tagged_Permutation pHYs cs cs'); try done;
    apply Hu; repeat constructor.
Qed.

(** X2, witness: the baseline chunk before or after the header chunk. *)
Lemma chunk_order_irrelevant_witness :
  getMetricsFromBytes
    (signature ++ concat (map encode [IHDR_100x50; baSE_40]) ++ [])
  = getMetricsFromBytes
      (signature ++ concat (map encode [baSE_40; IHDR_100x50]) ++ []).
Proof.
  apply chunk_order_irrelevant.
  - apply perm_swap.
  - intros typ H.
    repeat (apply elem_of_cons in H; destruct H as [->|H];
            [vm_compute; lia|]).
    by apply elem_of_nil in H.
  - repeat constructor; by vm_compute.
  - simpl. lia.
  - simpl. lia.
Defined.




(** X3: the first 8 bytes are read and dropped without a look at them: an
    input gives the same outcome as the input with the PNG signature in the
    place of its first 8 bytes. *)
Theorem signature_not_inspected (first8 rest : list byte) :
  length first8 = 8%nat ->
  getMetricsFromBytes (first8 ++ rest) = getMetricsFromBytes (signature ++ rest).
Proof.
  intros H8. unfold getMetricsFromBytes, bind, call, Util.readBytes.
  cbn [start bytes width height baseline dpi].
  rewrite !length_app, H8. cbn [length signature].
  replace (8 <=? 8 + length rest)%nat with true
    by (symmetry; apply Nat.leb_le; lia).
  rewrite drop_app_length' by done.
  by rewrite (drop_app_length' signature) by done.
Qed.

(** X3, witness: eight zero bytes before a header chunk. *)
Lemma signature_not_inspected_witness :
  getMetricsFromBytes (replicate 8 x00 ++ encode IHDR_100x50)
  = getMetricsFromBytes (signature ++ encode IHDR_100x50).
Proof. apply signature_not_inspected. reflexivity. Defined.



Lemma byte_value_of z : Util.byte_value (Util.byte_of z) = z mod 256.
Proof.
  unfold Util.byte_value, Util.byte_of.
  assert (Hz : 0 <= z mod 256 < 256) by (apply Z.mod_pos_bound; lia).
  destruct (Byte.of_N (Z.to_N (z mod 256))) as [b|] eqn:Hb.
  - apply Byte.to_of_N in Hb. simpl. rewrite Hb. lia.
  - apply Byte.of_N_None_iff in Hb. lia.
Qed.

Lemma word_value_u32 z : 0 <= z < 2 ^ 32 -> word_value (u32 z) = z.
Proof.
  intros Hz. unfold word_value, u32, Util.uint32. cbn [b0 b1 b2 b3].
  rewrite !byte_value_of.
  change (2 ^ 24) with (256 * 256 * 256). change (2 ^ 16) with (256 * 256).
  change (2 ^ 8) with 256. change (2 ^ 32) with (256 * 256 * 256 * 256) in Hz.
  pose proof (Z.div_mod z 256 ltac:(lia)).
  pose proof (Z.div_mod (z / 256) 256 ltac:(lia)).
  pose proof (Z.div_mod (z / 256 / 256) 256 ltac:(lia)).
  rewrite <- !Z.div_div by lia.
  assert (z / 256 / 256 / 256 < 256).
  { repeat (apply Z.div_lt_upper_bound; [lia|]). lia. }
  assert (0 <= z / 256 / 256 / 256) by (repeat apply Z.div_pos; lia).
  rewrite (Z.mod_small (z / 256 / 256 / 256)) by lia.
  pose proof (Z.mod_pos_bound z 256 ltac:(lia)).
  pose proof (Z.mod_pos_bound (z / 256) 256 ltac:(lia)).
  pose proof (Z.mod_pos_bound (z / 256 / 256) 256 ltac:(lia)).
  lia.
Qed.

Lemma field_u32_0 z rest :
  0 <= z < 2 ^ 32 -> field (word_bytes (u32 z) ++ rest) 0 = z.
Proof. intros Hz. rewrite <- (word_value_u32 z Hz) at 2. done. Qed.

Lemma field_u32_4 y z rest :
  0 <= z < 2 ^ 32 ->
  field (word_bytes (u32 y) ++ word_bytes (u32 z) ++ rest) 4 = z.
Proof. intros Hz. rewrite <- (word_value_u32 z Hz) at 2. done. Qed.

Lemma field_u32 z : 0 <= z < 2 ^ 32 -> field (word_bytes (u32 z)) 0 = z.
Proof. intros Hz. rewrite <- (word_value_u32 z Hz) at 2. done. Qed.

(** X5: round trip. For a width, a height, a baseline and a resolution
    below 2^32, parsing the payload that holds them in a header, a baseline
    and a resolution chunk gives back the width and the height exactly, the
    baseline exactly unless it is zero (a zero baseline is left out of the
    array), and as [dpi] the resolution divided by 39.37 and rounded. *)
Theorem png_of_metrics_round_trip (w h b x : Z) :
  0 <= w < 2 ^ 32 -> 0 <= h < 2 ^ 32 -> 0 <= b < 2 ^ 32 -> 0 <= x < 2 ^ 32 ->
  exists ar,
    getMetricsFromBytes (png_of_metrics w h b x) = Return (Some ar)
    /\ entry_integer ar "cw" = Some w
    /\ entry_integer ar "ch" = Some h
    /\ entry_integer ar "cb" = (if b =? 0 then None else Some b)
    /\ entry ar "dpi" = Number (Math_round (div (of_Z x) n39_37)).
Proof.
  intros Hw Hh Hb Hx. unfold png_of_metrics, png.
  rewrite <- (app_nil_r (concat _)).
  rewrite getMetricsFromBytes_walked, result_metrics_of_chunks;
    [|repeat constructor|simpl; lia].
  unfold metrics_of_chunks.
  assert (last_tagged IHDR [header_chunk w h; baseline_chunk b;
                            resolution_chunk x] = Some (header_chunk w h))
    as -> by done.
  assert (last_tagged baSE [header_chunk w h; baseline_chunk b;
                            resolution_chunk x] = Some (baseline_chunk b))
    as -> by done.
  assert (last_tagged pHYs [header_chunk w h; baseline_chunk b;
                            resolution_chunk x] = Some (resolution_chunk x))
    as -> by done.
  unfold header_chunk, baseline_chunk, resolution_chunk. cbn [body].
  rewrite (field_u32_0 w), (field_u32_4 w h), (field_u32 b), (field_u32_0 x)
    by done.
  eexists. split; [done|].
  destruct (Z.eqb_spec b 0) as [->|Hb0]; split_and!;
    unfold entry_integer, entry; simplify_map_eq; simpl;
    try (apply integer_of_of_Z; lia); done.
Qed.

(** X5, witness: 100 by 50, baseline 40, 3780 pixels per metre. *)
Lemma png_of_metrics_round_trip_witness :
  exists ar,
    getMetricsFromBytes (png_of_metrics 100 50 40 3780) = Return (Some ar)
    /\ entry_integer ar "cw" = Some 100
    /\ entry_integer ar "ch" = Some 50
    /\ entry_integer ar "cb" = Some 40
    /\ entry ar "dpi" = Number (Math_round (div (of_Z 3780) n39_37)).
Proof. apply (png_of_metrics_round_trip 100 50 40 3780); lia. Defined.

(** ** The variables of the chunk loop, whatever the bytes *)

Lemma integer_number_intro z : integer_number (Number (of_Z z)).
Proof. by exists z. Qed.

Lemma dpi_number_intro z :
  dpi_number (Number (Math_round (div (of_Z z) n39_37))).
Proof. by exists z. Qed.

Lemma read_chunk_invariant st :
  loop_invariant st ->
  match read_chunk st with
  | Return (_, st') => loop_invariant st'
  | _ => True
  end.
Proof.
  intros (Hwh & Hb & Hd).
  unfold read_chunk, bind, call, Util.readInt32, Util.readByte,
    set_width, set_height, set_baseline, set_dpi, get_dpi, ret.
  destruct st as [bs w h b d]. cbn [bytes width height baseline dpi] in *.
  destruct bs as [|l0 [|l1 [|l2 [|l3 [|t0 [|t1 [|t2 [|t3 r]]]]]]]]; try done.
  cbn [bytes width height baseline dpi].
  destruct (Util.uint32 t0 t1 t2 t3 =? _).
  { destruct r as [|w0 [|w1 [|w2 [|w3 [|h0 [|h1 [|h2 [|h3
      [|p0 [|p1 [|p2 [|p3 [|p4 [|c0 [|c1 [|c2 [|c3 r]]]]]]]]]]]]]]]]];
      try done.
    cbn [bytes width height baseline dpi].
    split_and!; [right; split; apply integer_number_intro|done|done]. }
  destruct (Util.uint32 t0 t1 t2 t3 =? _).
  { destruct r as [|w0 [|w1 [|w2 [|w3 [|c0 [|c1 [|c2 [|c3 r]]]]]]]]; try done.
    cbn [bytes width height baseline dpi].
    split_and!; [done|right; apply integer_number_intro|done]. }
  destruct (Util.uint32 t0 t1 t2 t3 =? _).
  { destruct r as [|w0 [|w1 [|w2 [|w3 [|h0 [|h1 [|h2 [|h3
      [|p0 [|c0 [|c1 [|c2 [|c3 r]]]]]]]]]]]]]; try done.
    cbn [bytes width height baseline dpi divide ToNumber].
    split_and!; [done|done|right; apply dpi_number_intro]. }
  destruct r as [|c0 [|c1 [|c2 [|c3 r]]]]; try done.
Qed.

Lemma while_chunks_invariant fuel : forall st,
  loop_invariant st ->
  match while_chunks fuel st with
  | Return (_, st') => loop_invariant st'
  | _ => True
  end.
Proof.
  induction fuel as [|fuel IH]; intros st Hi; rewrite while_chunks_unfold.
  - by destruct (4 <=? _)%nat.
  - destruct (4 <=? _)%nat; [|done].
    unfold bind. pose proof (read_chunk_invariant st Hi) as Hr.
    destruct (read_chunk st) as [[[] st']| |]; try done.
    by apply IH.
Qed.

(** X6: whatever the bytes, an array returned by the PNG parser has the
    entries [cw] and [ch], both numbers made from a value read in a header
    chunk; its [dpi] entry is there, [undefined] or a rounded quotient by
    39.37; its [cb] entry, when there, is a number and is truthy; and it
    has no other entry. *)
Theorem png_metrics_shape (input : list byte) (ar : metrics) :
  getMetricsFromBytes input = Return (Some ar) ->
  integer_number (entry ar "cw") /\ integer_number (entry ar "ch")
  /\ (ar !! "dpi" = Some Undefined \/ dpi_number (entry ar "dpi"))
  /\ (ar !! "cb" = None
      \/ integer_number (entry ar "cb") /\ ToBoolean (entry ar "cb") = true)
  /\ (forall key, is_Some (ar !! key) -> key ∈ ["cw"; "ch"; "dpi"; "cb"]%string).
Proof.
  unfold getMetricsFromBytes, bind, call, Util.readBytes.
  cbn [bytes width height baseline dpi start].
  destruct (8 <=? length input)%nat; [|done].
  set (st0 := {| bytes := drop 8 input |}).
  assert (H0 : loop_invariant st0) by (subst st0; repeat split; by left).
  pose proof (while_chunks_invariant (length input) st0 H0) as Hi.
  destruct (while_chunks (length input) st0) as [[[] st]| |]; try done.
  destruct Hi as (Hwh & Hb & Hd). unfold result.
  destruct Hwh as [[Hw Hh]|[Hw Hh]].
  { by rewrite Hw. }
  destruct Hw as (w & Hw). rewrite Hw at 1.
  replace (negb (loosely_equal (String (typeof (Number (of_Z w))))
                               (String (lit "undefined")))) with true by done.
  intros [= <-].
  assert (Hkeys : forall (m : metrics) key,
            is_Some (m !! key) ->
            m ⊆ <["dpi" := dpi st]> (<["ch" := height st]>
                   (<["cw" := width st]> ∅)) ->
            key ∈ ["cw"; "ch"; "dpi"; "cb"]%string).
  { intros m key [v Hv] Hm. eapply lookup_weaken in Hv; [|done].
    repeat (apply lookup_insert_Some in Hv;
            destruct Hv as [[Hk _]|[_ Hv]]; [rewrite <- Hk; repeat constructor|]).
    done. }
  destruct (ToBoolean (baseline st)) eqn:Hbt.
  - unfold entry. simplify_map_eq. split_and!.
    + by exists w.
    + done.
    + destruct Hd as [->|Hd]; auto.
    + right. destruct Hb as [Hb|Hb]; [by rewrite Hb in Hbt|done].
    + intros key [v Hv]. apply lookup_insert_Some in Hv.
      destruct Hv as [[Hk _]|[_ Hv]]; [rewrite <- Hk; repeat constructor|].
      by apply (Hkeys _ key (mk_is_Some _ _ Hv)).
  - unfold entry. simplify_map_eq. split_and!.
    + by exists w.
    + done.
    + destruct Hd as [->|Hd]; auto.
    + by left.
    + intros key Hv. by apply (Hkeys _ key Hv).
Qed.

(** X6, witness: the payload whose private chunk has a body, which the
    loop does not walk. *)
Lemma png_metrics_shape_witness :
  let ar : metrics :=
    <["dpi" := Undefined]> (<["ch" := Number (of_Z 9)]>
      (<["cw" := Number (of_Z 7)]> ∅)) in
  integer_number (entry ar "cw") /\ integer_number (entry ar "ch")
  /\ (ar !! "dpi" = Some Undefined \/ dpi_number (entry ar "dpi"))
  /\ (ar !! "cb" = None
      \/ integer_number (entry ar "cb") /\ ToBoolean (entry ar "cb") = true)
  /\ (forall key, is_Some (ar !! key) -> key ∈ ["cw"; "ch"; "dpi"; "cb"]%string).
Proof. intros ar. apply (png_metrics_shape png_prVt). by vm_compute. Defined.

(** X7: a header of width zero. For a payload of walked chunks with a
    header chunk, sizing from the parsed array leaves the image as it is
    when the width field of the last header chunk is zero, and writes
    width, height and vertical-align otherwise. *)
Theorem png_width_zero_not_sized (cs : list chunk) (tail : list byte)
    (hd : chunk) (img : image) :
  Forall walked cs -> (length tail < 4)%nat ->
  last_tagged IHDR cs = Some hd ->
  (field (body hd) 0 = 0 ->
   (ar <- getMetricsFromBytes (signature ++ concat (map encode cs) ++ tail) ;;
    applyMetrics ar img)%outcome = Return img)
  /\ (field (body hd) 0 <> 0 ->
      exists w h v,
        (ar <- getMetricsFromBytes
                 (signature ++ concat (map encode cs) ++ tail) ;;
         applyMetrics ar img)%outcome
        = Return {| src := src img; attr_width := Some w;
                    attr_height := Some h;
                    style_verticalAlign := Some v;
                    style_maxWidth := style_maxWidth img |}).
Proof.
  intros Hw Ht Hl.
  rewrite getMetricsFromBytes_walked, result_metrics_of_chunks by done.
  unfold metrics_of_chunks. rewrite Hl. cbn [outcome_bind].
  set (arr := <["dpi" := _]> _).
  assert (Hcw : forall m : metrics, m !! "cw"%string = arr !! "cw"%string ->
            ToBoolean (entry m "cw") = negb (field (body hd) 0 =? 0)).
  { intros m Hm. unfold entry. rewrite Hm. subst arr. simplify_map_eq.
    apply of_Z_truthy. pose proof (field_range (body hd) 0). lia. }
  set (m := match last_tagged baSE cs with Some _ => _ | None => _ end).
  assert (Hm : m !! "cw"%string = arr !! "cw"%string).
  { subst m. destruct (last_tagged baSE cs) as [c|]; [|done].
    destruct (field (body c) 0 =? 0); [done|]. by rewrite lookup_insert_ne. }
  specialize (Hcw m Hm). split; intros Hf.
  - unfold applyMetrics. rewrite Hcw, Hf. done.
  - rewrite applyMetrics_writes; [by eauto|].
    rewrite Hcw. by apply negb_true_iff, Z.eqb_neq.
Qed.

(** X7, witness: a header chunk of 0 by 50. *)
Lemma png_width_zero_not_sized_witness :
  (ar <- getMetricsFromBytes
           (signature ++ concat (map encode [header_chunk 0 50]) ++ []) ;;
   applyMetrics ar (blank []))%outcome = Return (blank []).
Proof.
  destruct (png_width_zero_not_sized [header_chunk 0 50] []
              (header_chunk 0 50) (blank [])) as [H _].
  - repeat constructor; by vm_compute.
  - simpl. lia.
  - by vm_compute.
  - apply H. by vm_compute.
Defined.

(** ** What the sizing writes *)

(** [applyMetrics] keeps [src] and [max-width], and writes all of width,
    height and vertical-align or none of them. *)
Lemma applyMetrics_frame ar img img' :
  applyMetrics ar img = Return img' ->
  src img' = src img /\ style_maxWidth img' = style_maxWidth img
  /\ (img' = img
      \/ exists w h offset,
           attr_width img' = Some w /\ attr_height img' = Some h
           /\ style_verticalAlign img'
              = Some ((lit "-" ++ NumberToString offset) ++ lit "px")).
Proof.
  destruct ar as [ar|]; [|done].
  destruct (ToBoolean (entry ar "cw")) eqn:Hw.
  - rewrite applyMetrics_writes by done. intros [= <-]. simpl.
    split; [done|]. split; [done|]. right.
    do 3 eexists. split_and!; reflexivity.
  - unfold applyMetrics. rewrite Hw. simpl. intros [= <-]. auto.
Qed.

Lemma applyMetrics_again ar img img' :
  applyMetrics ar img = Return img' -> applyMetrics ar img' = Return img'.
Proof.
  destruct ar as [ar|]; [|done].
  destruct (ToBoolean (entry ar "cw")) eqn:Hw.
  - rewrite !applyMetrics_writes by done. by intros [= <-].
  - unfold applyMetrics. rewrite Hw. simpl. by intros [= <-].
Qed.

Lemma responseMetrics_src cfg img img' uri json :
  src img = src img' ->
  responseMetrics cfg img uri json = responseMetrics cfg img' uri json.
Proof. intros H. unfold responseMetrics. by rewrite H. Qed.

Lemma setImgSize_frame cfg img img' uri json :
  setImgSize cfg img uri json = Return img' ->
  src img' = src img /\ style_maxWidth img' = style_maxWidth img.
Proof.
  unfold setImgSize.
  destruct (responseMetrics cfg img uri json) as [ar| |]; try done.
  intros H. apply applyMetrics_frame in H. tauto.
Qed.

(** X8: all or nothing. A call of [setImgSize] that returns has kept [src]
    and the [max-width] declaration, and has either left the image as it
    was or written the width, the height and a vertical-align declaration
    made of a minus sign, the text of a number and [px]; on every path, for
    every configuration. *)
Theorem setImgSize_all_or_nothing (cfg : configuration) (img img' : image)
    (uri : jsstring) (jsonResponse : bool) :
  setImgSize cfg img uri jsonResponse = Return img' ->
  src img' = src img /\ style_maxWidth img' = style_maxWidth img
  /\ (img' = img
      \/ exists w h offset,
           attr_width img' = Some w /\ attr_height img' = Some h
           /\ style_verticalAlign img'
              = Some ((lit "-" ++ NumberToString offset) ++ lit "px")).
Proof.
  unfold setImgSize.
  destruct (responseMetrics cfg img uri jsonResponse) as [ar| |]; try done.
  apply applyMetrics_frame.
Qed.

(** X8, witness: the sample SVG text. *)
Lemma setImgSize_all_or_nothing_witness :
  let img' := {| src := [];
                 attr_width := Some (String (lit "120"));
                 attr_height := Some (String (lit "40"));
                 style_verticalAlign := Some (lit "-10px");
                 style_maxWidth := None |} in
  src img' = src (blank []) /\ style_maxWidth img' = style_maxWidth (blank [])
  /\ (img' = blank []
      \/ exists w h offset,
           attr_width img' = Some w /\ attr_height img' = Some h
           /\ style_verticalAlign img'
              = Some ((lit "-" ++ NumberToString offset) ++ lit "px")).
Proof.
  intros img'.
  apply (setImgSize_all_or_nothing svg_plain (blank []) img' svg_sample true).
  by vm_compute.
Defined.

(** X9: sizing again changes nothing: a call of [setImgSize] on the image
    a first call has returned, with the same arguments, returns that
    image. *)
Theorem setImgSize_idempotent (cfg : configuration) (img img' : image)
    (uri : jsstring) (jsonResponse : bool) :
  setImgSize cfg img uri jsonResponse = Return img' ->
  setImgSize cfg img' uri jsonResponse = Return img'.
Proof.
  unfold setImgSize.
  destruct (responseMetrics cfg img uri jsonResponse) as [ar| |] eqn:Hr;
    try done.
  simpl. intros Ha.
  destruct (applyMetrics_frame _ _ _ Ha) as (Hs & _).
  rewrite (responseMetrics_src cfg img' img) by done. rewrite Hr. simpl.
  by apply (applyMetrics_again _ img).
Qed.

(** X9, witness: the PNG data URI sized twice. *)
Lemma setImgSize_idempotent_witness :
  let img := blank (png_prefix ++ late_pHYs_base64) in
  let img' := sized_100x50 (png_prefix ++ late_pHYs_base64) in
  setImgSize png_base64 img' [] true = Return img'.
Proof.
  intros img img'.
  apply (setImgSize_idempotent png_base64 img img' [] true).
  by vm_compute.
Defined.

(** ** The resize path *)

Lemma fixAfterResize_src decodeURIComponent cfg img img' :
  src img = src img' ->
  fixAfterResize decodeURIComponent cfg img
  = fixAfterResize decodeURIComponent cfg img'.
Proof. intros H. unfold fixAfterResize. by rewrite H. Qed.

Lemma fixAfterResize_frame decodeURIComponent cfg img img' :
  fixAfterResize decodeURIComponent cfg img = Return img' ->
  src img' = src img /\ style_maxWidth img' = Some (lit "none").
Proof.
  unfold fixAfterResize. cbn [src].
  set (c := {| src := src img |}).
  intros H.
  assert (exists uri json, setImgSize cfg c uri json = Return img')
    as (uri & json & Hs).
  { destruct (negb _); [|eauto]. destruct (bool_decide _); [|eauto].
    destruct (decodeURIComponent _); try done. eauto. }
  by apply setImgSize_frame in Hs as (H1 & H2).
Qed.

Lemma substring_tail p e :
  substring (p ++ e) (Z.of_nat (length p)) (jslength (p ++ e)) = e.
Proof.
  unfold jslength. rewrite substring_span; [|rewrite length_app; lia|done].
  rewrite drop_app_length. apply take_ge. rewrite length_app. lia.
Qed.

Lemma svg_uri_text enc :
  let s := svg_prefix ++ enc in
  indexOf s (lit "data:image") 0 = 0 /\ substring s 32 (jslength s) = enc.
Proof.
  split.
  - apply (indexOf_first _ _ 0). apply first_at_app; [vm_compute; lia|].
    by apply first_at_index_from.
  - apply (substring_tail svg_prefix).
Qed.

(** X10: the image that [fixAfterResize] returns has the [src] it had and
    a [max-width] of [none], and the call on it returns it again. *)
Theorem fixAfterResize_idempotent
    (decodeURIComponent : jsstring -> outcome jsstring)
    (cfg : configuration) (img img' : image) :
  fixAfterResize decodeURIComponent cfg img = Return img' ->
  src img' = src img /\ style_maxWidth img' = Some (lit "none")
  /\ fixAfterResize decodeURIComponent cfg img' = Return img'.
Proof.
  intros H. destruct (fixAfterResize_frame _ _ _ _ H) as [Hs Hm].
  split_and!; [done..|].
  by rewrite (fixAfterResize_src _ cfg img' img).
Qed.

(** X10, witness: the PNG data URI. *)
Lemma fixAfterResize_idempotent_witness :
  let img := blank (png_prefix ++ late_pHYs_base64) in
  let img' := {| src := src img;
                 attr_width := Some (Number (of_Z 100));
                 attr_height := Some (Number (of_Z 50));
                 style_verticalAlign := Some (lit "-10px");
                 style_maxWidth := Some (lit "none") |} in
  src img' = src img /\ style_maxWidth img' = Some (lit "none")
  /\ fixAfterResize (fun s => Return s) png_base64 img' = Return img'.
Proof.
  intros img img'.
  apply (fixAfterResize_idempotent (fun s => Return s) png_base64 img img').
  by vm_compute.
Defined.

(** X11: for an image whose [src] is the 32 characters
    [data:image/svg+xml;charset=utf8,] followed by a text, with the SVG
    format and a save mode other than base64, [fixAfterResize] decodes the
    text with [decodeURIComponent] and sizes the image, cleared, from the
    attributes of the decoded text; it throws what the decoding throws. *)
Theorem resize_reads_svg_text
    (decodeURIComponent : jsstring -> outcome jsstring)
    (cfg : configuration) (img : image) (enc : jsstring) :
  imageFormat cfg = lit "svg" -> saveMode cfg <> lit "base64" ->
  src img = svg_prefix ++ enc ->
  fixAfterResize decodeURIComponent cfg img
  = (svg <- decodeURIComponent enc ;;
     applyMetrics (getMetricsFromSvgString svg) (cleared img))%outcome.
Proof.
  intros Hf Hm Hs. destruct (svg_uri_text enc) as [Hi Hsub].
  unfold fixAfterResize. cbn [src]. rewrite Hs, Hi, Hsub.
  rewrite (bool_decide_eq_true_2 _ Hf). cbn [Z.eqb negb].
  destruct (decodeURIComponent enc) as [svg| |]; try done.
  cbn [outcome_bind]. unfold setImgSize, responseMetrics.
  rewrite (bool_decide_eq_true_2 _ Hf), (bool_decide_eq_false_2 _ Hm).
  cbn [negb outcome_bind]. unfold cleared. by rewrite Hs.
Qed.

(** X11, witness: the sample SVG text behind the prefix. *)
Lemma resize_reads_svg_text_witness :
  let img := blank (svg_prefix ++ svg_sample) in
  fixAfterResize (fun s => Return s) svg_plain img
  = (svg <- Return svg_sample ;;
     applyMetrics (getMetricsFromSvgString svg) (cleared img))%outcome.
Proof.
  intros img.
  apply (resize_reads_svg_text (fun s => Return s) svg_plain img svg_sample).
  - reflexivity.
  - by vm_compute.
  - reflexivity.
Defined.

(** X12: for an image whose [src] does not contain [data:image],
    [fixAfterResize] sizes the image, cleared, from the query string of the
    [src], whatever the configuration and the decoder: the call of
    [setImgSize] has no third argument. *)
Theorem resize_of_legacy_url
    (decodeURIComponent : jsstring -> outcome jsstring)
    (cfg : configuration) (img : image) :
  indexOf (src img) (lit "data:image") 0 = -1 ->
  fixAfterResize decodeURIComponent cfg img
  = applyMetrics (Some (Util.urlToAssArray (src img))) (cleared img).
Proof.
  intros Hi. unfold fixAfterResize. cbn [src]. rewrite Hi. done.
Qed.

(** X12, witness: a URL with the metrics in its query string. *)
Lemma resize_of_legacy_url_witness :
  fixAfterResize (fun s => Return s) svg_plain (blank legacy_url)
  = applyMetrics (Some (Util.urlToAssArray legacy_url))
                 (cleared (blank legacy_url)).
Proof.
  apply (resize_of_legacy_url (fun s => Return s) svg_plain (blank legacy_url)).
  by vm_compute.
Defined.

(** ** SVG texts *)

Lemma index_from_absent (c : N) pat : forall s k,
  c ∈ pat -> c ∉ s -> index_from pat s k = None.
Proof.
  induction s as [|x s IH]; intros k Hp Hs.
  - simpl. unfold is_prefix. rewrite bool_decide_eq_false_2; [done|].
    rewrite take_nil. intros E. rewrite <- E in Hp. by apply elem_of_nil in Hp.
  - simpl. unfold is_prefix. rewrite bool_decide_eq_false_2.
    + apply IH; [done|]. by apply not_elem_of_cons in Hs as [_ Hs].
    + intros E. apply Hs. rewrite <- E in Hp.
      by apply (subseteq_take (length pat) (x :: s)).
Qed.

Lemma indexOf_absent (c : N) s pat position :
  c ∈ pat -> c ∉ s -> indexOf s pat position = -1.
Proof.
  intros Hp Hs. unfold indexOf. rewrite (index_from_absent c); [done..|].
  intros H. apply Hs. by eapply subseteq_drop.
Qed.

Lemma substring_to_minus_one s (n : nat) :
  substring s (Z.of_nat n) (-1) = take n s.
Proof.
  unfold substring, clamp, jslength.
  replace (Z.to_nat (Z.min _ _)) with 0%nat by lia.
  rewrite drop_0, Nat.sub_0_r.
  destruct (decide (n <= length s)%nat).
  - f_equal. lia.
  - rewrite !take_ge; [done|lia..].
Qed.

Lemma svg_metrics_without_quotes s :
  dquote ∉ s ->
  getMetricsFromSvgString s
  = Some (<["cb" := String (take 13 s)]> (<["ch" := String (take 7 s)]>
           (<["cw" := String (take 6 s)]> ∅))).
Proof.
  intros Hq. unfold getMetricsFromSvgString.
  rewrite !(indexOf_absent dquote s) by (done || by vm_compute; set_solver).
  change (-1 + 8) with (Z.of_nat 7). change (-1 + 7) with (Z.of_nat 6).
  change (-1 + 14) with (Z.of_nat 13).
  rewrite (substring_to_minus_one s 7), (substring_to_minus_one s 6),
    (substring_to_minus_one s 13).
  done.
Qed.

(** The sizing from an array of three strings, as the SVG path builds it. *)
Lemma applyMetrics_strings (w h b : jsstring) (img : image) :
  applyMetrics (Some (<["cb" := String b]> (<["ch" := String h]>
                        (<["cw" := String w]> ∅)))) img
  = Return (if bool_decide (w = []) then img
            else {| src := src img;
                    attr_width := Some (String w);
                    attr_height := Some (String h);
                    style_verticalAlign :=
                      Some ((lit "-"
                             ++ NumberToString (sub (StringToNumber h)
                                                    (StringToNumber b)))
                            ++ lit "px");
                    style_maxWidth := style_maxWidth img |}).
Proof.
  case_bool_decide as Hw.
  - by subst w.
  - rewrite applyMetrics_writes.
    + unfold scaled, entry. by simplify_map_eq.
    + unfold entry. simplify_map_eq. cbn [ToBoolean].
      by rewrite bool_decide_eq_false_2.
Qed.

(** X13: SVG sizing for any attribute values. When the first [width=],
    [height=] and [wrs:baseline=] followed by a double quote open the
    values w, h and b (texts without a double quote), the sizing (SVG
    format, save mode other than base64) writes w and h as they stand, as
    strings and without any rescaling, and the vertical-align declaration
    made of a minus sign, the text of the number h - b and [px]; an empty
    w leaves the image as it is. *)
Theorem svg_sizing_attribute_values (cfg : configuration) (img : image)
    (s w h b : jsstring) :
  imageFormat cfg = lit "svg" -> saveMode cfg <> lit "base64" ->
  first_attribute (lit "width=") w s -> dquote ∉ w ->
  first_attribute (lit "height=") h s -> dquote ∉ h ->
  first_attribute (lit "wrs:baseline=") b s -> dquote ∉ b ->
  setImgSize cfg img s true
  = Return (if bool_decide (w = []) then img
            else {| src := src img;
                    attr_width := Some (String w);
                    attr_height := Some (String h);
                    style_verticalAlign :=
                      Some ((lit "-"
                             ++ NumberToString (sub (StringToNumber h)
                                                    (StringToNumber b)))
                            ++ lit "px");
                    style_maxWidth := style_maxWidth img |}).
Proof.
  intros Hf Hm Hw Hwq Hh Hhq Hb Hbq.
  unfold setImgSize, responseMetrics.
  rewrite (bool_decide_eq_true_2 _ Hf), (bool_decide_eq_false_2 _ Hm).
  cbn [negb outcome_bind].
  rewrite (svg_metrics_first s w h b) by done.
  apply applyMetrics_strings.
Qed.

(** X13, witness: the text with a [stroke-width] attribute in front; the
    first match of [width=] is inside it, and its value is 2. *)
Lemma svg_sizing_attribute_values_witness :
  setImgSize svg_plain (blank []) svg_stroke true
  = Return {| src := [];
              attr_width := Some (String (lit "2"));
              attr_height := Some (String (lit "40"));
              style_verticalAlign :=
                Some ((lit "-"
                       ++ NumberToString (sub (StringToNumber (lit "40"))
                                              (StringToNumber (lit "30"))))
                      ++ lit "px");
              style_maxWidth := None |}.
Proof.
  apply (svg_sizing_attribute_values svg_plain (blank []) svg_stroke
           (lit "2") (lit "40") (lit "30")).
  - reflexivity.
  - by vm_compute.
  - exists (lit "<svg stroke-"),
      (lit " width=" ++ [dquote] ++ lit "120" ++ [dquote]
       ++ lit " height=" ++ [dquote] ++ lit "40" ++ [dquote]
       ++ lit " wrs:baseline=" ++ [dquote] ++ lit "30" ++ [dquote] ++ lit ">").
    split; [by vm_compute|]. apply first_at_index_from. by vm_compute.
  - by apply not_elem_of_forallb.
  - exists (lit "<svg stroke-width=" ++ [dquote] ++ lit "2" ++ [dquote]
            ++ lit " width=" ++ [dquote] ++ lit "120" ++ [dquote] ++ lit " "),
      (lit " wrs:baseline=" ++ [dquote] ++ lit "30" ++ [dquote] ++ lit ">").
    split; [by vm_compute|]. apply first_at_index_from. by vm_compute.
  - by apply not_elem_of_forallb.
  - exists (lit "<svg stroke-width=" ++ [dquote] ++ lit "2" ++ [dquote]
            ++ lit " width=" ++ [dquote] ++ lit "120" ++ [dquote]
            ++ lit " height=" ++ [dquote] ++ lit "40" ++ [dquote] ++ lit " "),
      (lit ">").
    split; [by vm_compute|]. apply first_at_index_from. by vm_compute.
  - by apply not_elem_of_forallb.
Defined.

(** X14: a text without any double quote. None of the three attributes is
    found, every [indexOf] gives -1, and the values are cut from the start
    of the text: the width is its first 6 characters, the height its first
    7 and the baseline its first 13. The sizing (SVG format, save mode other
    than base64) writes them, and leaves the image as it is only for the
    empty text. *)
Theorem svg_text_without_quotes (cfg : configuration) (img : image)
    (s : jsstring) :
  imageFormat cfg = lit "svg" -> saveMode cfg <> lit "base64" ->
  dquote ∉ s ->
  getMetricsFromSvgString s
  = Some (<["cb" := String (take 13 s)]> (<["ch" := String (take 7 s)]>
           (<["cw" := String (take 6 s)]> ∅)))
  /\ setImgSize cfg img s true
     = Return (if bool_decide (s = []) then img
               else {| src := src img;
                       attr_width := Some (String (take 6 s));
                       attr_height := Some (String (take 7 s));
                       style_verticalAlign :=
                         Some ((lit "-"
                                ++ NumberToString
                                     (sub (StringToNumber (take 7 s))
                                          (StringToNumber (take 13 s))))
                               ++ lit "px");
                       style_maxWidth := style_maxWidth img |}).
Proof.
  intros Hf Hm Hq. split; [by apply svg_metrics_without_quotes|].
  unfold setImgSize, responseMetrics.
  rewrite (bool_decide_eq_true_2 _ Hf), (bool_decide_eq_false_2 _ Hm).
  cbn [negb outcome_bind].
  rewrite svg_metrics_without_quotes, applyMetrics_strings by done.
  by destruct s.
Qed.

(** X14, witness: a tag whose attribute values have no quotes. *)
Lemma svg_text_without_quotes_witness :
  getMetricsFromSvgString svg_unquoted
  = Some (<["cb" := String (lit "<svg width=12")]>
           (<["ch" := String (lit "<svg wi")]>
             (<["cw" := String (lit "<svg w")]> ∅)))
  /\ setImgSize svg_plain (blank []) svg_unquoted true
     = Return {| src := [];
                 attr_width := Some (String (lit "<svg w"));
                 attr_height := Some (String (lit "<svg wi"));
                 style_verticalAlign := Some (lit "-NaNpx");
                 style_maxWidth := None |}.
Proof.
  apply (svg_text_without_quotes svg_plain (blank []) svg_unquoted).
  - reflexivity.
  - by vm_compute.
  - by apply not_elem_of_forallb.
Defined.

(** ** [clone] *)

Lemma copy_loop_lookup (o : Dom.element) names : forall (d : Dom.element) name,
  foldl (copy_attribute o) d names !! name
  = match o !! name with
    | Some v => if decide (name ∈ names /\ v <> []) then Some v else d !! name
    | None => d !! name
    end.
Proof.
  induction names as [|n names IH]; intros d name; cbn [foldl].
  - destruct (o !! name); [|done]. rewrite decide_False; [done|].
    intros [H _]. by apply elem_of_nil in H.
  - rewrite IH. unfold copy_attribute, Dom.getAttribute, Dom.setAttribute.
    destruct (o !! name) as [v|] eqn:Hv.
    + destruct (decide (name ∈ names /\ v <> [])) as [[Hin Hne]|Hn].
      { rewrite decide_True; [done|]. split; [by right|done]. }
      destruct (decide (n = name)) as [->|Hneq].
      * rewrite Hv. simpl. destruct (decide (v = [])) as [->|Hve].
        -- simpl. rewrite decide_False; [done|]. by intros [_ ?].
        -- rewrite bool_decide_eq_false_2 by done. simpl.
           rewrite lookup_insert_eq. rewrite decide_True; [done|].
           split; [by left|done].
      * rewrite decide_False.
        2:{ intros [Hin Hne]. apply elem_of_cons in Hin as [->|Hin]; [done|].
            apply Hn. done. }
        destruct (o !! n) as [vn|]; [|done].
        destruct (ToBoolean (String vn)); [|done].
        by rewrite lookup_insert_ne.
    + destruct (decide (n = name)) as [->|Hneq].
      * by rewrite Hv.
      * destruct (o !! n) as [vn|]; [|done].
        destruct (ToBoolean (String vn)); [|done].
        by rewrite lookup_insert_ne.
Qed.

(** Every attribute of the destination after [clone]. *)
Lemma clone_attribute (mathml : jsstring) (o d : Dom.element) (name : jsstring) :
  clone mathml o d !! name
  = match o !! name with
    | Some v =>
        if decide (name ∈ imgAttributes mathml /\ v <> []) then Some v
        else d !! name
    | None =>
        if decide (name = lit "data-custom-editor") then None else d !! name
    end.
Proof.
  unfold clone. rewrite copy_loop_lookup.
  unfold Dom.hasAttribute, Dom.removeAttribute.
  destruct (o !! name) as [v|] eqn:Hv.
  - destruct (decide _); [done|].
    destruct (bool_decide (is_Some (o !! lit "data-custom-editor"))) eqn:Hc;
      simpl; [done|].
    apply bool_decide_eq_false in Hc.
    rewrite lookup_delete_ne; [done|]. intros <-. apply Hc. by rewrite Hv.
  - destruct (decide (name = lit "data-custom-editor")) as [->|Hn].
    + rewrite bool_decide_eq_false_2 by (rewrite Hv; by intros [? ?]).
      simpl. by rewrite lookup_delete_eq.
    + destruct (negb _); [|done]. by rewrite lookup_delete_ne.
Qed.

(** X15: what [clone] does to the attributes of its list. A listed
    attribute that the origin has with a non-empty value is copied; a
    listed attribute that the origin lacks, or has with the empty value,
    is not touched, so that the destination keeps the value it had, but
    for [data-custom-editor], which is removed from the destination when
    the origin lacks it. *)
Theorem clone_copies_listed_attributes (mathml : jsstring)
    (o d : Dom.element) (name : jsstring) :
  (forall v, name ∈ imgAttributes mathml -> o !! name = Some v -> v <> [] ->
     clone mathml o d !! name = Some v)
  /\ (o !! name = None \/ o !! name = Some [] ->
      name <> lit "data-custom-editor" ->
      clone mathml o d !! name = d !! name)
  /\ (o !! lit "data-custom-editor" = None ->
      clone mathml o d !! lit "data-custom-editor" = None)
  /\ (o !! lit "data-custom-editor" = Some [] ->
      clone mathml o d !! lit "data-custom-editor"
      = d !! lit "data-custom-editor").
Proof.
  rewrite !clone_attribute. split_and!.
  - intros v Hin -> Hv. by rewrite decide_True.
  - intros [->| ->] Hn.
    + by rewrite decide_False.
    + rewrite decide_False; [done|]. by intros [_ ?].
  - by intros ->.
  - intros ->. rewrite decide_False; [done|]. by intros [_ ?].
Qed.

(** X16: cloning twice is cloning once, and cloning onto an element that
    has the attributes of the origin changes nothing. *)
Theorem clone_idempotent (mathml : jsstring) (o d : Dom.element) :
  clone mathml o (clone mathml o d) = clone mathml o d
  /\ clone mathml o o = o.
Proof.
  split; apply map_eq; intros name; rewrite !clone_attribute.
  - destruct (o !! name) as [v|]; repeat case_decide; done.
  - destruct (o !! name) as [v|] eqn:Hv; repeat case_decide; done.
Qed.

(** X17: [clone] leaves every attribute outside its list as the
    destination has it: none is added, removed or changed. *)
Theorem clone_leaves_other_attributes (mathml : jsstring)
    (o d : Dom.element) (name : jsstring) :
  name ∉ imgAttributes mathml ->
  clone mathml o d !! name = d !! name.
Proof.
  intros Hn. rewrite clone_attribute.
  destruct (o !! name) as [v|].
  - rewrite decide_False; [done|]. by intros [? _].
  - rewrite decide_False; [done|]. intros ->. apply Hn.
    unfold imgAttributes. repeat constructor.
Qed.

(** X17, witness: the [id] of the destination. *)
Lemma clone_leaves_other_attributes_witness :
  let o : Dom.element := {[ lit "alt" := lit "x" ]} in
  let d : Dom.element := {[ lit "id" := lit "formula" ]} in
  clone (lit "data-mathml") o d !! lit "id" = d !! lit "id".
Proof.
  intros o d. apply clone_leaves_other_attributes.
  intros H. unfold imgAttributes in H.
  repeat (apply elem_of_cons in H; destruct H as [H|H]; [discriminate H|]).
  by apply elem_of_nil in H.
Defined.
